(** * check_gradle9_compat.py: the rule scanner and its glue, verified

    A shallow embedding of [src/check_gradle9_compat.py].  Python strings are
    sequences of Unicode code points; the compiled patterns of the rule table
    are terms of a small regular-expression syntax, run by a backtracking
    matcher that lists the end states of a match attempt in the order in
    which the [re] engine explores them.  The file system, the environment
    and the JSON decoder are explicit arguments. *)

From Stdlib Require Import String Ascii List Bool Arith NArith ZArith Lia.
Import ListNotations.

Set Implicit Arguments.

(* ------------------------------------------------------------------ *)
(** ** Text *)

Module Text.

(** A character is a Unicode code point, a [str] is a list of them. *)
Definition char := N.
Definition text := list char.

(** String literals of the source are ASCII; [cps] reads one. *)
Definition cps (s : string) : text := map N_of_ascii (list_ascii_of_string s).

Fixpoint text_eqb (a b : text) : bool :=
  match a, b with
  | [], [] => true
  | x :: a', y :: b' => N.eqb x y && text_eqb a' b'
  | _, _ => false
  end.

(** A character literal. *)
Definition ch (a : ascii) : char := N_of_ascii a.

(** [s.startswith(p)] *)
Fixpoint startswith (p s : text) : bool :=
  match p, s with
  | [], _ => true
  | x :: p', y :: s' => N.eqb x y && startswith p' s'
  | _ :: _, [] => false
  end.

(** [bool(s)] for a string: non-empty. *)
Definition truthy (s : text) : bool :=
  match s with [] => false | _ :: _ => true end.

(** [sub in t], as a proposition: [sub] occurs in [t] as a substring. *)
Definition occurs (sub t : text) : Prop :=
  exists pre post, t = pre ++ sub ++ post.

(** Code points for which [str.isspace] holds, which is the class [\s] of a
    [str] pattern (Unicode 14, the tables of CPython 3.11). *)
Definition is_space (c : char) : bool :=
  ((9 <=? c) && (c <=? 13) || (28 <=? c) && (c <=? 32)
   || (c =? 133) || (c =? 160) || (c =? 5760)
   || (8192 <=? c) && (c <=? 8202)
   || (c =? 8232) || (c =? 8233) || (c =? 8239) || (c =? 8287)
   || (c =? 12288))%N.

(** The code point of the digit zero of every decimal script (category Nd,
    Unicode 14): each is followed by its digits one to nine. *)
Definition decimal_zeros : list char :=
  [48; 1632; 1776; 1984; 2406; 2534; 2662; 2790; 2918; 3046; 3174; 3302;
   3430; 3558; 3664; 3792; 3872; 4160; 4240; 6112; 6160; 6470; 6608; 6784;
   6800; 6992; 7088; 7232; 7248; 42528; 43216; 43264; 43472; 43504; 43600;
   44016; 65296; 66720; 68912; 69734; 69872; 69942; 70096; 70384; 70736;
   70864; 71248; 71360; 71472; 71904; 72016; 72784; 73040; 73120; 92768;
   92864; 93008; 120782; 120792; 120802; 120812; 120822; 123200; 123632;
   125264; 130032]%N.

(** The decimal value of a code point, when it is a decimal digit. *)
Fixpoint decimal_in (zeros : list char) (c : char) : option Z :=
  match zeros with
  | [] => None
  | z :: zeros' =>
      if ((z <=? c) && (c <? z + 10))%N then Some (Z.of_N (c - z))
      else decimal_in zeros' c
  end.

Definition decimal_value (c : char) : option Z := decimal_in decimal_zeros c.

(** The class [\d] of a [str] pattern. *)
Definition is_digit (c : char) : bool :=
  match decimal_value c with Some _ => true | None => false end.

End Text.
Import Text.

(* ------------------------------------------------------------------ *)
(** ** Exceptions *)

Inductive exn : Type :=
| ValueError
| TypeError
| AttributeError.

(** A computation that returns or raises. *)
Inductive result (A : Type) : Type :=
| Ok (a : A)
| Raise (e : exn).
Arguments Ok {A} a.
Arguments Raise {A} e.

Definition bind {A B} (x : result A) (f : A -> result B) : result B :=
  match x with
  | Ok a => f a
  | Raise e => Raise e
  end.

Notation "x <- c ;; k" := (bind c (fun x => k))
  (at level 61, c at next level, right associativity).
Notation "' p <- c ;; k" := (bind c (fun x => let p := x in k))
  (at level 61, p pattern, c at next level, right associativity).

(** [int(s)] on a group captured by [\d+].  [None] is passed when the group
    did not take part in the match ([int(None)] raises [TypeError]); a string
    that is not a non-empty run of decimal digits raises [ValueError] here.
    (Python's [int] also reads a sign, underscores and surrounding blanks; the
    scanner never passes such a string, see [scan_rule_shape].
    The interpreter's cap on the number of digits it converts, a run-time
    setting, is not modelled.) *)
Fixpoint digits_value (acc : Z) (s : text) : result Z :=
  match s with
  | [] => Ok acc
  | c :: s' =>
      match decimal_value c with
      | Some d => digits_value (10 * acc + d) s'
      | None => Raise ValueError
      end
  end.

Definition int (s : option text) : result Z :=
  match s with
  | None => Raise TypeError
  | Some [] => Raise ValueError
  | Some (c :: s') => digits_value 0 (c :: s')
  end.

(* ------------------------------------------------------------------ *)
(** ** Regular expressions: the fragment of [re] that the script uses *)

Module Re.

(** What one character is tested against. *)
Inductive cset : Type :=
| Chr (c : char)                     (* a literal character *)
| Dot                                (* [.]: anything but a newline *)
| Space                              (* [\s] *)
| Digit                              (* [\d] *)
| Bracket (items : list (char * char)).  (* [[a-bc]]: ranges, [c] as [(c,c)] *)

Inductive regex : Type :=
| Lit (s : text)                     (* a literal string *)
| One (cs : cset)
| Star (cs : cset)                   (* greedy [cs*] *)
| Plus (cs : cset)                   (* greedy [cs+] *)
| Bol                                (* [^] under [re.MULTILINE] *)
| Seq (r1 r2 : regex)
| Alt (r1 r2 : regex)                (* [r1|r2] *)
| Group (n : nat) (r : regex).       (* the capturing group number [n] *)

Definition newline : char := 10%N.

Definition cs_match (cs : cset) (c : char) : bool :=
  match cs with
  | Chr c' => N.eqb c' c
  | Dot => negb (N.eqb c newline)
  | Space => is_space c
  | Digit => is_digit c
  | Bracket items =>
      existsb (fun '(lo, hi) => (lo <=? c) && (c <=? hi))%N items
  end.

(** A point of a match attempt: the text consumed so far (most recent
    character first), the text ahead, and the groups captured. *)
Record mstate : Type := MState {
  seen : text;
  rest : text;
  caps : list (nat * text)
}.

Definition get_cap (n : nat) (g : list (nat * text)) : option text :=
  match find (fun '(k, _) => Nat.eqb k n) g with
  | Some (_, s) => Some s
  | None => None
  end.

Definition set_cap (n : nat) (s : text) (g : list (nat * text))
  : list (nat * text) := (n, s) :: g.

(** [^] under MULTILINE: at the start of the text or right after a newline. *)
Definition at_bol (st : mstate) : bool :=
  match seen st with
  | [] => true
  | c :: _ => N.eqb c newline
  end.

(** The states after [cs*], longest run first. *)
Fixpoint star_from (cs : cset) (sn rs : text) (g : list (nat * text))
  : list mstate :=
  match rs with
  | [] => [MState sn [] g]
  | c :: rs' =>
      if cs_match cs c then star_from cs (c :: sn) rs' g ++ [MState sn rs g]
      else [MState sn rs g]
  end.

(** The literal [s] at the head of [rs]: what is left, and what was seen. *)
Fixpoint lit_from (s : text) (sn rs : text) : option (text * text) :=
  match s with
  | [] => Some (sn, rs)
  | x :: s' =>
      match rs with
      | y :: rs' => if N.eqb x y then lit_from s' (y :: sn) rs' else None
      | [] => None
      end
  end.

(** The end states of matching [r] from [st], in the engine's order of
    preference: the engine takes the first way through that succeeds. *)
Fixpoint run (r : regex) (st : mstate) : list mstate :=
  match r with
  | Lit s =>
      match lit_from s (seen st) (rest st) with
      | Some (sn, rs) => [MState sn rs (caps st)]
      | None => []
      end
  | One cs =>
      match rest st with
      | c :: rs' =>
          if cs_match cs c then [MState (c :: seen st) rs' (caps st)] else []
      | [] => []
      end
  | Star cs => star_from cs (seen st) (rest st) (caps st)
  | Plus cs =>
      match rest st with
      | c :: rs' =>
          if cs_match cs c then star_from cs (c :: seen st) rs' (caps st)
          else []
      | [] => []
      end
  | Bol => if at_bol st then [st] else []
  | Seq r1 r2 => flat_map (run r2) (run r1 st)
  | Alt r1 r2 => run r1 st ++ run r2 st
  | Group n r =>
      map (fun st' =>
             MState (seen st') (rest st')
               (set_cap n (firstn (length (rest st) - length (rest st'))
                             (rest st)) (caps st')))
          (run r st)
  end.

(** A match object: where it starts, the text matched, the groups. *)
Record rmatch : Type := RMatch {
  m_start : nat;
  m_text : text;
  m_caps : list (nat * text)
}.

(** [m.group(n)] for [n >= 1]; [None] for a group that took no part. *)
Definition group (m : rmatch) (n : nat) : option text := get_cap n (m_caps m).

(** [pattern.search(text)] from the position after [sn]: the first position,
    left to right, at which an attempt succeeds, with the preferred way. *)
Fixpoint search_from (r : regex) (sn rs : text) : option rmatch :=
  match run r (MState sn rs []) with
  | st' :: _ =>
      Some (RMatch (length sn)
              (firstn (length rs - length (rest st')) rs) (caps st'))
  | [] =>
      match rs with
      | [] => None
      | c :: rs' => search_from r (c :: sn) rs'
      end
  end.

Definition search (r : regex) (t : text) : option rmatch := search_from r [] t.

(** A sequence of regular expressions, as written left to right. *)
Fixpoint seq (rs : list regex) : regex :=
  match rs with
  | [] => Lit []
  | [r] => r
  | r :: rs' => Seq r (seq rs')
  end.

End Re.
Import Re.

(* ------------------------------------------------------------------ *)
(** ** The rule table and the scanner *)

Module Scanner.

(** The bracket class of the two quote characters, single and double. *)
Definition quote : cset := Bracket [(39, 39); (34, 34)]%N.

(** The bracket class [[0-9.]]. *)
Definition version_chars : cset :=
  Bracket [(ch "0", ch "9"); (ch ".", ch ".")].

(** [(title, pattern, advice, sev)] *)
Definition rule : Type := (text * regex * text * text)%type.

Definition maven_re : regex :=
  seq [Lit (cps "apply"); Plus Space; Lit (cps "plugin:"); Star Space;
       One quote; Lit (cps "maven"); One quote].

Definition compile_re : regex :=
  seq [Group 1 (Alt Bol (One Space)); Lit (cps "compile");
       Group 2 (Alt (One Space) (One (Chr (ch "("))))].

Definition provided_re : regex :=
  seq [Group 1 (Alt Bol (One Space)); Lit (cps "provided");
       Group 2 (Alt (One Space) (One (Chr (ch "("))))].

Definition jcenter_re : regex :=
  seq [Lit (cps "jcenter"); Star Space; One (Chr (ch "("))].

Definition kae_re : regex := Lit (cps "kotlin-android-extensions").

Definition agp_re : regex :=
  seq [Lit (cps "classpath"); Plus Space; One quote;
       Lit (cps "com.android.tools.build:gradle:");
       Group 1 (Plus Digit); One (Chr (ch "."))].

Definition kotlin_re : regex :=
  seq [Lit (cps "classpath"); Plus Space; One quote;
       Lit (cps "org.jetbrains.kotlin:kotlin-gradle-plugin:");
       Group 1 (Plus Digit); One (Chr (ch ".")); Group 2 (Plus Digit)].

Definition buildscript_re : regex :=
  seq [Bol; Star Space; Lit (cps "buildscript"); Star Space; One (Chr (ch "{"))].

Definition maven_rule : rule :=
  (cps "Deprecated 'maven' plugin", maven_re,
   cps "Replace with 'maven-publish'.", cps "HIGH").

Definition compile_rule : rule :=
  (cps "Deprecated 'compile' configuration", compile_re,
   cps "Use 'implementation' or 'api'.", cps "HIGH").

Definition provided_rule : rule :=
  (cps "Deprecated 'provided' configuration", provided_re,
   cps "Use 'compileOnly'.", cps "HIGH").

Definition jcenter_rule : rule :=
  (cps "JCenter repository", jcenter_re,
   cps "Remove jcenter(); use mavenCentral() + google().", cps "HIGH").

Definition kae_rule : rule :=
  (cps "Kotlin Android Extensions plugin", kae_re,
   cps "Removed; switch to ViewBinding / kotlin-parcelize.", cps "HIGH").

Definition agp_rule : rule :=
  (cps "Old AGP classpath (<8)", agp_re,
   cps "Upgrade AGP to 8+ (Gradle 9 readiness).", cps "HIGH").

Definition kotlin_rule : rule :=
  (cps "Old Kotlin plugin (<1.9)", kotlin_re,
   cps "Consider Kotlin 1.9+ depending on AGP.", cps "WARN").

Definition buildscript_rule : rule :=
  (cps "Legacy buildscript{} style", buildscript_re,
   cps "Not wrong, but modern projects prefer plugins{} / version catalogs.",
   cps "INFO").

Definition RULES : list rule :=
  [maven_rule; compile_rule; provided_rule; jcenter_rule; kae_rule;
   agp_rule; kotlin_rule; buildscript_rule].

Definition WRAPPER_RE : regex :=
  seq [Lit (cps "distributionUrl="); Star Dot; Lit (cps "gradle-");
       Group 1 (Plus version_chars); One (Chr (ch "-"))].

(** A finding: [(sev, title, advice)]. *)
Definition finding : Type := (text * text * text)%type.

(** The first version gate of the loop body: [Ok true] is [continue]. *)
Definition agp_gate (title : text) (m : rmatch) : result bool :=
  if startswith (cps "Old AGP classpath") title then
    major <- int (group m 1) ;;
    Ok (major >=? 8)%Z
  else Ok false.

(** The second version gate. *)
Definition kotlin_gate (title : text) (m : rmatch) : result bool :=
  if startswith (cps "Old Kotlin plugin") title then
    major <- int (group m 1) ;;
    minor <- int (group m 2) ;;
    Ok ((major >? 1) || (major =? 1) && (minor >=? 9))%Z
  else Ok false.

(** One turn of the loop of [scan_text_for_rules]: the findings the rule
    appends to [hits], none or one. *)
Definition scan_rule (t : text) (r : rule) : result (list finding) :=
  let '(title, pattern, advice, sev) := r in
  match search pattern t with
  | None => Ok []
  | Some m =>
      skip1 <- agp_gate title m ;;
      if skip1 then Ok []
      else
        skip2 <- kotlin_gate title m ;;
        if skip2 then Ok [] else Ok [(sev, title, advice)]
  end.

(** The loop over a rule table, [hits] growing at its end. *)
Fixpoint scan_rules (rules : list rule) (t : text) (hits : list finding)
  : result (list finding) :=
  match rules with
  | [] => Ok hits
  | r :: rules' =>
      new <- scan_rule t r ;;
      scan_rules rules' t (hits ++ new)
  end.

Definition scan_text_for_rules (t : text) : result (list finding) :=
  scan_rules RULES t [].

(** Wrapper version extraction, lines 226 to 228 of [main] on the text
    read from the wrapper properties file. *)
Definition wrapper_version_of (content : text) : option text :=
  match search WRAPPER_RE content with
  | Some m => group m 1
  | None => None
  end.

End Scanner.
Import Scanner.

Definition nl : string := String (ascii_of_nat 10) EmptyString.

(* ------------------------------------------------------------------ *)
(** ** Decoded JSON *)

Module Json.

(** A value as [json.loads] returns it.  A [dict] is the list of its items;
    a float is kept only up to whether it is zero, which is all the script
    asks of a number. *)
#[warnings="-register-all"]
Inductive json : Type :=
| JNull
| JBool (b : bool)
| JInt (z : Z)
| JFloat (nonzero : bool)
| JStr (s : text)
| JArr (items : list json)
| JObj (items : list (text * json)).

(** [bool(v)] *)
Definition truth (v : json) : bool :=
  match v with
  | JNull => false
  | JBool b => b
  | JInt z => negb (Z.eqb z 0)
  | JFloat nz => nz
  | JStr s => truthy s
  | JArr l => match l with [] => false | _ :: _ => true end
  | JObj l => match l with [] => false | _ :: _ => true end
  end.

Fixpoint lookup (key : text) (items : list (text * json)) : option json :=
  match items with
  | [] => None
  | (k, v) :: items' => if text_eqb k key then Some v else lookup key items'
  end.

(** [v.get(key, default)]: only a [dict] has the method. *)
Definition get (v : json) (key : text) (default : json) : result json :=
  match v with
  | JObj items =>
      match lookup key items with
      | Some x => Ok x
      | None => Ok default
      end
  | _ => Raise AttributeError
  end.

(** [a or b] *)
Definition or_else (a b : json) : json := if truth a then a else b.

(** What [for p in v] goes through: the elements of a list, the keys of a
    [dict], the characters of a string; nothing else is iterable. *)
Definition iter (v : json) : result (list json) :=
  match v with
  | JArr l => Ok l
  | JObj l => Ok (map (fun kv => JStr (fst kv)) l)
  | JStr s => Ok (map (fun c => JStr [c]) s)
  | _ => Raise TypeError
  end.

End Json.
Import Json.

(* ------------------------------------------------------------------ *)
(** ** The world around the script *)

Module Glue.

(** A [Path], as the list of its components. *)
Definition path : Type := list text.

Definition join (p : path) (c : string) : path := p ++ [cps c].
Infix "//" := join (at level 40, left associativity).

Fixpoint path_eqb (p q : path) : bool :=
  match p, q with
  | [], [] => true
  | a :: p', b :: q' => text_eqb a b && path_eqb p' q'
  | _, _ => false
  end.

(** What the script asks of its surroundings.  Reading a file and decoding
    JSON may raise; the other operations are taken to return, as is writing
    to standard output. *)
Record world : Type := World {
  cwd : path;                            (* [Path.cwd()] *)
  home : path;                           (* [Path.home()] *)
  exists_ : path -> bool;                (* [p.exists()] *)
  read : path -> option text;            (* [p.read_text(..)]; [None]: raises *)
  rglob : path -> text -> list path;     (* [p.rglob(pat)], in its order *)
  json_loads : text -> option json;      (* [json.loads]; [None]: raises *)
  os_nt : bool;                          (* [os.name == "nt"] *)
  environ : text -> option text;         (* [os.environ.get] *)
  to_path : text -> path;                (* [Path(s)] *)
  expanduser : path -> path;             (* [p.expanduser()] *)
  format : json -> text                  (* a value inside an f-string *)
}.

Section InWorld.

Variable w : world.

Definition read_text (p : path) : text :=
  match read w p with
  | Some t => t
  | None => []
  end.

(** The de-duplication loop of [find_files]. *)
Fixpoint uniq_from (seen_ps : list path) (out : list path) : list path :=
  match out with
  | [] => []
  | p :: out' =>
      if existsb (path_eqb p) seen_ps then uniq_from seen_ps out'
      else p :: uniq_from (p :: seen_ps) out'
  end.

Definition find_files (root : path) (patterns : list text) : list path :=
  uniq_from [] (flat_map (rglob w root) patterns).

Definition get_pub_cache_dir : path :=
  match environ w (cps "PUB_CACHE") with
  | Some (c :: e) => expanduser w (to_path w (c :: e))
  | _ =>
      if os_nt w then
        match environ w (cps "LOCALAPPDATA") with
        | Some (c :: l) => to_path w (c :: l) // "Pub" // "Cache"
        | _ => home w // "AppData" // "Local" // "Pub" // "Cache"
        end
      else home w // ".pub-cache"
  end.

(** An entry of the list [parse_plugins] returns: the [dict] with the keys
    [name] and [path]. *)
Record plugin : Type := Plugin { p_name : json; p_path : json }.

(** The loop of [parse_plugins], [out] growing at its end. *)
Fixpoint collect_plugins (ps : list json) (out : list plugin)
  : result (list plugin) :=
  match ps with
  | [] => Ok out
  | p :: ps' =>
      name <- get p (cps "name") JNull ;;
      pth <- get p (cps "path") JNull ;;
      if truth name && truth pth
      then collect_plugins ps' (out ++ [Plugin name pth])
      else collect_plugins ps' out
  end.

Definition parse_plugins (project_root : path) : result (list plugin) :=
  let f := project_root // ".flutter-plugins-dependencies" in
  if negb (exists_ w f) then Ok []
  else
    match json_loads w (read_text f) with
    | None => Ok []
    | Some data =>
        pl <- get data (cps "plugins") (JObj []) ;;
        an <- get pl (cps "android") (JArr []) ;;
        ps <- iter (or_else an (JArr [])) ;;
        collect_plugins ps []
    end.

Definition GRADLE_FILES : list text :=
  [cps "*.gradle"; cps "*.gradle.kts"; cps "gradle.properties";
   cps "settings.gradle"; cps "settings.gradle.kts"].

(** The loop that scans a list of files and keeps those with findings. *)
Fixpoint scan_files (files : list path) (acc : list (path * list finding))
  : result (list (path * list finding)) :=
  match files with
  | [] => Ok acc
  | f :: files' =>
      hits <- scan_text_for_rules (read_text f) ;;
      match hits with
      | [] => scan_files files' acc
      | _ :: _ => scan_files files' (acc ++ [(f, hits)])
      end
  end.

(** The wrapper version, lines 223 to 228. *)
Definition wrapper_version (android_dir : path) : option text :=
  let wrapper :=
    android_dir // "gradle" // "wrapper" // "gradle-wrapper.properties" in
  if exists_ w wrapper then wrapper_version_of (read_text wrapper) else None.

Definition plugin_entry : Type :=
  (json * path * list (path * list finding))%type.

(** The plugin loop, lines 235 to 261. *)
Fixpoint scan_plugins (pub_cache : path) (plugins : list plugin)
    (acc : list plugin_entry) : result (list plugin_entry) :=
  match plugins with
  | [] => Ok acc
  | p :: plugins' =>
      let name := p_name p in
      base0 <- match p_path p with
               | JStr s => Ok (expanduser w (to_path w s))
               | _ => Raise TypeError
               end ;;
      let base :=
        if negb (exists_ w base0) then
          match rglob w pub_cache (format w name ++ cps "-*") with
          | cand :: _ => cand
          | [] => base0
          end
        else base0 in
      let android_sub := base // "android" in
      if negb (exists_ w android_sub) then scan_plugins pub_cache plugins' acc
      else
        hits_per_file <- scan_files (find_files android_sub GRADLE_FILES) [] ;;
        match hits_per_file with
        | [] => scan_plugins pub_cache plugins' acc
        | _ :: _ =>
            scan_plugins pub_cache plugins'
              (acc ++ [(name, base, hits_per_file)])
        end
  end.

(** What [main] has gathered when it reaches its summary. *)
Record gathered : Type := Gathered {
  project_findings : list (path * list finding);
  wrapper : option text;
  plugin_findings : list plugin_entry
}.

Definition gather (root android_dir : path) : result gathered :=
  pf <- scan_files (find_files android_dir GRADLE_FILES) [] ;;
  let wv := wrapper_version android_dir in
  plugins <- parse_plugins root ;;
  plf <- scan_plugins get_pub_cache_dir plugins [] ;;
  Ok (Gathered pf wv plf).

(** [sum(len(h) for _, h in l)] *)
Definition count_hits (l : list (path * list finding)) : nat :=
  list_sum (map (fun fh => length (snd fh)) l).

Definition total_project (g : gathered) : nat :=
  count_hits (project_findings g).

Definition total_plugins (g : gathered) : nat :=
  list_sum (map (fun e => count_hits (snd e)) (plugin_findings g)).

Definition total (g : gathered) : nat := total_project g + total_plugins g.

(** [main]: [Ok n] is the exit status [n] of [sys.exit(n)], [Raise e] an
    exception that nothing catches.  The report is written to standard
    output between the gathering and the exit and changes neither. *)
Definition main : result Z :=
  let root := cwd w in
  if negb (exists_ w (root // "pubspec.yaml")) then Ok 1%Z
  else
    let android_dir := root // "android" in
    if negb (exists_ w android_dir) then Ok 1%Z
    else
      g <- gather root android_dir ;;
      Ok (if Nat.ltb 0 (total g) then 1%Z else 0%Z).

End InWorld.

End Glue.
Import Glue.

(* ------------------------------------------------------------------ *)
(** ** What is printed *)

From Stdlib Require DecimalString.

Module Report.

(** The code points of a literal that is written in UTF-8. *)
Fixpoint utf8 (bs : list N) : text :=
  match bs with
  | [] => []
  | b :: r =>
      if (b <? 128)%N then b :: utf8 r
      else
        match r with
        | [] => []
        | b1 :: r1 =>
            if (b <? 224)%N
            then ((b - 192) * 64 + (b1 - 128))%N :: utf8 r1
            else
              match r1 with
              | [] => []
              | b2 :: r2 =>
                  if (b <? 240)%N
                  then ((b - 224) * 4096 + (b1 - 128) * 64
                        + (b2 - 128))%N :: utf8 r2
                  else
                    match r2 with
                    | [] => []
                    | b3 :: r3 =>
                        ((b - 240) * 262144 + (b1 - 128) * 4096
                         + (b2 - 128) * 64 + (b3 - 128))%N :: utf8 r3
                    end
              end
        end
  end.

Definition u8 (s : string) : text :=
  utf8 (map N_of_ascii (list_ascii_of_string s)).

(** The escape character, which opens every colour code. *)
Definition esc : char := 27%N.

Definition RESET : text := esc :: cps "[0m".
Definition BOLD : text := esc :: cps "[1m".
Definition DIM : text := esc :: cps "[2m".
Definition RED : text := esc :: cps "[31m".
Definition YELLOW : text := esc :: cps "[33m".
Definition GREEN : text := esc :: cps "[32m".
Definition BLUE : text := esc :: cps "[34m".
Definition CYAN : text := esc :: cps "[36m".
Definition MAGENTA : text := esc :: cps "[35m".

(** [supports_color], from [os.name == "nt"] and [sys.stdout.isatty()]. *)
Definition supports_color (nt isatty : bool) : bool :=
  if nt then false else isatty.

(** [str(n)] for a count. *)
Definition str_of_nat (n : nat) : text :=
  cps (DecimalString.NilEmpty.string_of_uint (Nat.to_uint n)).

(** [s * n] on strings; a negative [n] gives the empty string. *)
Definition times (s : text) (n : Z) : text := concat (repeat s (Z.to_nat n)).

(** [s.replace(old, new)], after the first [skip] characters of [s]. *)
Fixpoint replace_from (old new : text) (skip : nat) (s : text) : text :=
  match s with
  | [] => []
  | ch0 :: s' =>
      match skip with
      | S k => replace_from old new k s'
      | O =>
          if startswith old s
          then new ++ replace_from old new (length old - 1) s'
          else ch0 :: replace_from old new 0 s'
      end
  end.

Definition replace (s old new : text) : text :=
  match old with
  | [] => new ++ flat_map (fun ch0 => ch0 :: new) s
  | _ :: _ => replace_from old new 0 s
  end.

(** [p.relative_to(root)] *)
Fixpoint relative_to (p root : path) : result path :=
  match root, p with
  | [], _ => Ok p
  | a :: root', b :: p' =>
      if text_eqb a b then relative_to p' root' else Raise ValueError
  | _ :: _, [] => Raise ValueError
  end.

Section Printing.

(** The global [USE_COLOR]. *)
Variable USE_COLOR : bool.

Definition c (txt color : text) : text :=
  if negb USE_COLOR then txt else color ++ txt ++ RESET.

Definition badge (sev : text) : text :=
  if text_eqb sev (cps "HIGH") then
    if USE_COLOR then c (u8 "🚨 HIGH") RED else u8 "🚨 HIGH"
  else if text_eqb sev (cps "WARN") then
    if USE_COLOR then c (u8 "⚠️  WARN") YELLOW else u8 "⚠️  WARN"
  else
    if USE_COLOR then c (u8 "ℹ️  INFO") BLUE else u8 "ℹ️  INFO".

Definition divider (char : text) (width : Z) : text := times char width.

(** The defaults of [divider]. *)
Definition divider_char : text := u8 "─".
Definition divider_width : Z := 72.

(** What a function prints: the text of each [print], in order. *)
Definition title_box (t : text) : list text :=
  [ [];
    c (divider (u8 "━") divider_width) MAGENTA;
    c (cps "  " ++ t) MAGENTA;
    c (divider (u8 "━") divider_width) MAGENTA;
    [] ].

Definition section (t : text) : list text := [c (newline :: t) CYAN].

Definition issue_lines (issue : finding) : list text :=
  let '(sev, title, advice) := issue in
  [ u8 "  │ " ++ badge sev ++ cps "  " ++ title;
    u8 "  │    ↳ " ++ c advice DIM ].

Definition print_file_card (file_path : text) (issues : list finding)
  : list text :=
  [ c (u8 "  ┌──────────────────────────────────────────────────────────────") DIM;
    u8 "  │ 📄 " ++ c file_path (if USE_COLOR then BOLD else []);
    c (u8 "  ├──────────────────────────────────────────────────────────────") DIM ]
  ++ flat_map issue_lines issues
  ++ [ c (u8 "  └──────────────────────────────────────────────────────────────") DIM; [] ].

Definition print_plugin_card (plugin_name plugin_path : text)
    (total_issues : nat) : list text :=
  let label := u8 "🔌 " ++ plugin_name in
  let right := str_of_nat total_issues ++ cps " issue(s)" in
  [ c (divider (u8 "─") divider_width) DIM;
    c label (if USE_COLOR then BOLD else []) ++ cps "  "
      ++ c (u8 "•") DIM ++ cps "  " ++ c plugin_path DIM;
    c (u8 "↳") DIM ++ cps " "
      ++ c right (if USE_COLOR then YELLOW else []);
    c (divider (u8 "─") divider_width) DIM ].

End Printing.

(** [short_path]; [render] is [str] on a path. *)
Definition short_path (w : world) (render : path -> text)
    (p project_root : path) : text :=
  match relative_to p project_root with
  | Ok rel => render rel
  | Raise _ => replace (render p) (render (home w)) (cps "~")
  end.

End Report.

(* ------------------------------------------------------------------ *)
(** ** Vocabulary of the statements, and sample inputs *)

Definition r_title (r : rule) : text := let '(t, _, _, _) := r in t.
Definition r_pattern (r : rule) : regex := let '(_, p, _, _) := r in p.

(** The finding a rule appends when it fires. *)
Definition finding_of (r : rule) : finding :=
  let '(title, _, advice, sev) := r in (sev, title, advice).

Definition f_sev (f : finding) : text := fst (fst f).
Definition f_title (f : finding) : text := snd (fst f).

(** Whether the turn of the loop for [r] appends a finding. *)
Definition fires (t : text) (r : rule) : bool :=
  match scan_rule t r with
  | Ok (_ :: _) => true
  | _ => false
  end.

(** The findings of [hits] that carry the title [title]. *)
Definition with_title (title : text) (hits : list finding) : list finding :=
  filter (fun f => text_eqb (f_title f) title) hits.

Definition AGP_PREFIX : text := cps "Old AGP classpath".
Definition KOTLIN_PREFIX : text := cps "Old Kotlin plugin".

(** A regular expression every match of which takes in a character that is
    not white space. *)
Fixpoint inked (r : regex) : bool :=
  match r with
  | Lit s => existsb (fun c => negb (is_space c)) s
  | One (Chr c) => negb (is_space c)
  | Seq r1 r2 => inked r1 || inked r2
  | Alt r1 r2 => inked r1 && inked r2
  | Group _ r' => inked r'
  | _ => false
  end.

Definition has_ink (t : text) : bool :=
  existsb (fun c => negb (is_space c)) t.

(** No two rules of the list share a title. *)
Fixpoint titles_distinct (l : list rule) : bool :=
  match l with
  | [] => true
  | r :: l' =>
      negb (existsb (fun r' => text_eqb (r_title r') (r_title r)
                               || text_eqb (r_title r) (r_title r')) l')
      && titles_distinct l'
  end.

(** The text in which the maven pattern occurs once, as the pattern reads:
    [apply], white space, [plugin:], any white space, a quote, [maven], a
    quote. *)
Definition maven_usage (ws1 ws2 : text) (q1 q2 : char) : text :=
  cps "apply" ++ ws1 ++ cps "plugin:" ++ ws2 ++ q1 :: cps "maven" ++ [q2].

Definition maven_twice : text :=
  cps ("apply plugin: 'maven'" ++ nl ++ "apply  plugin:'maven'")%string.

Definition agp_line (version : string) : text :=
  cps ("classpath 'com.android.tools.build:gradle:" ++ version ++ "'")%string.

Definition kotlin_line (version : string) : text :=
  cps ("classpath 'org.jetbrains.kotlin:kotlin-gradle-plugin:" ++ version
       ++ "'")%string.

Definition agp_8_then_7 : text :=
  agp_line "8.1.0" ++ cps nl ++ agp_line "7.4.2".

Definition kotlin_19_then_18 : text :=
  kotlin_line "1.9.0" ++ cps nl ++ kotlin_line "1.8.22".

(** The exit status of the process: that of [sys.exit], and 1 when the
    interpreter ends on an exception that nothing catches. *)
Definition exit_status (r : result Z) : Z :=
  match r with
  | Ok n => n
  | Raise _ => 1%Z
  end.

(** A glob of the small world below: a name, or a star and a suffix. *)
Definition glob_name (pat name : text) : bool :=
  match pat with
  | 42%N :: suffix => startswith (rev suffix) (rev name)
  | _ => text_eqb pat name
  end.

Fixpoint path_under (d p : path) : bool :=
  match d, p with
  | [], _ => true
  | a :: d', b :: p' => text_eqb a b && path_under d' p'
  | _ :: _, [] => false
  end.

(** A small world: the files listed (with their text, or [None] where the
    read fails) and the directories listed exist; a glob finds the listed
    files under its directory; the decoder knows the documents listed and
    rejects every other text. *)
Definition small_world (files : list (path * option text))
    (dirs : list path) (docs : list (text * json)) : world :=
  {| cwd := [cps "proj"];
     home := [cps "home"];
     exists_ := fun p => existsb (fun f => path_eqb (fst f) p) files
                         || existsb (fun d => path_eqb d p) dirs;
     read := fun p =>
       match find (fun f => path_eqb (fst f) p) files with
       | Some (_, content) => content
       | None => None
       end;
     rglob := fun d pat =>
       map fst
         (filter (fun f => path_under d (removelast (fst f))
                           && glob_name pat (last (fst f) []))
            files);
     json_loads := fun t =>
       match find (fun d => text_eqb (fst d) t) docs with
       | Some (_, v) => Some v
       | None => None
       end;
     os_nt := false;
     environ := fun _ => None;
     to_path := fun s => [s];
     expanduser := fun p => p;
     format := fun v => match v with JStr s => s | _ => cps "?" end |}.

Definition proj : path := [cps "proj"].
Definition pubspec : path * option text := (proj // "pubspec.yaml", Some []).
Definition manifest_path : path := proj // ".flutter-plugins-dependencies".

(** A project whose one build file is clean, and one with [jcenter()]. *)
Definition clean_world : world :=
  small_world
    [pubspec;
     (proj // "android" // "build.gradle", Some (cps "plugins { }"))]
    [proj // "android"] [].

Definition jcenter_world : world :=
  small_world
    [pubspec;
     (proj // "android" // "build.gradle",
      Some (cps "repositories { jcenter() }"))]
    [proj // "android"] [].

(** A project whose second build file cannot be read. *)
Definition unreadable_world : world :=
  small_world
    [pubspec;
     (proj // "android" // "build.gradle", Some (cps "plugins { }"));
     (proj // "android" // "app" // "build.gradle", None)]
    [proj // "android"; proj // "android" // "app"] [].

(** A project whose plugin manifest is the JSON document of an empty
    array, and one whose manifest is an object without members. *)
Definition array_manifest_world : world :=
  small_world [pubspec; (manifest_path, Some (cps "[]"))]
    [proj // "android"] [(cps "[]", JArr [])].

Definition empty_manifest_world : world :=
  small_world [pubspec; (manifest_path, Some (cps "{}"))]
    [proj // "android"] [(cps "{}", JObj [])].

Definition nonempty_hits (e : path * list finding) : Prop := snd e <> [].

Definition sound_entry (e : plugin_entry) : Prop :=
  snd e <> [] /\ Forall nonempty_hits (snd e).

(** *** Positions of a match, and usages as a reader of a build file
    would describe them *)

(** Where a match state stands in the text. *)
Definition pos (st : mstate) : text * text := (seen st, rest st).

(** [r] can take the matcher from the position [(sn, rs)] to [(sn', rs')]. *)
Definition reach (r : regex) (sn rs sn' rs' : text) : Prop :=
  exists g', In (MState sn' rs' g') (run r (MState sn rs [])).

(** [r] matches at the position [(sn, rs)]. *)
Definition matches_at (r : regex) (sn rs : text) : Prop :=
  exists sn' rs', reach r sn rs sn' rs'.

Definition blank (ws : text) : Prop := forallb is_space ws = true.

(** [pre] is empty or ends in white space. *)
Definition after_space (pre : text) : Prop :=
  pre = [] \/ exists p x, pre = p ++ [x] /\ is_space x = true.

(** [pre] is empty or ends in a newline. *)
Definition line_start (pre : text) : Prop :=
  pre = [] \/ exists p, pre = p ++ [newline].

(** [tl] is empty or starts with a character outside the class. *)
Definition stops (cs : cset) (tl : text) : Prop :=
  match tl with
  | [] => True
  | x :: _ => cs_match cs x = false
  end.

Definition maven_in (t : text) : Prop :=
  exists pre post ws1 ws2 q1 q2,
    t = pre ++ maven_usage ws1 ws2 q1 q2 ++ post /\
    ws1 <> [] /\ blank ws1 /\ blank ws2 /\
    cs_match quote q1 = true /\ cs_match quote q2 = true.

(** The configuration keyword [kw] after the start of the text or white
    space, and before white space or an opening parenthesis. *)
Definition keyword_in (kw t : text) : Prop :=
  exists pre c post,
    t = pre ++ kw ++ c :: post /\ after_space pre /\
    (is_space c = true \/ c = ch "(").

Definition jcenter_in (t : text) : Prop :=
  exists pre ws post,
    t = pre ++ cps "jcenter" ++ ws ++ ch "(" :: post /\ blank ws.

Definition buildscript_in (t : text) : Prop :=
  exists pre ws1 ws2 post,
    t = pre ++ ws1 ++ cps "buildscript" ++ ws2 ++ ch "{" :: post /\
    line_start pre /\ blank ws1 /\ blank ws2.

(** An AGP classpath line with the digits [d] for its major version. *)
Definition agp_in (t d : text) : Prop :=
  exists pre ws q post,
    t = pre ++ cps "classpath" ++ ws
          ++ q :: cps "com.android.tools.build:gradle:" ++ d
          ++ ch "." :: post /\
    ws <> [] /\ blank ws /\ cs_match quote q = true /\
    d <> [] /\ forallb is_digit d = true.

(** A Kotlin plugin classpath line with the digits [d1] and [d2] for its
    version, [d2] being all the digits that stand there. *)
Definition kotlin_in (t d1 d2 : text) : Prop :=
  exists pre ws q post,
    t = pre ++ cps "classpath" ++ ws
          ++ q :: cps "org.jetbrains.kotlin:kotlin-gradle-plugin:" ++ d1
          ++ ch "." :: d2 ++ post /\
    ws <> [] /\ blank ws /\ cs_match quote q = true /\
    d1 <> [] /\ forallb is_digit d1 = true /\
    d2 <> [] /\ forallb is_digit d2 = true /\ stops Digit post.

(** A distribution URL with the version [v], on one line. *)
Definition wrapper_in (content v : text) : Prop :=
  exists pre mid post,
    content = pre ++ cps "distributionUrl=" ++ mid ++ cps "gradle-" ++ v
                ++ ch "-" :: post /\
    forallb (cs_match Dot) mid = true /\
    v <> [] /\ forallb (cs_match version_chars) v = true.

(** Every match of [r] takes in a character for which [p] holds. *)
Fixpoint needs (p : char -> bool) (r : regex) : bool :=
  match r with
  | Lit s => existsb p s
  | One (Chr c) => p c
  | Plus (Chr c) => p c
  | Seq r1 r2 => needs p r1 || needs p r2
  | Alt r1 r2 => needs p r1 && needs p r2
  | Group _ r' => needs p r'
  | _ => false
  end.

(** [a] to [z]. *)
Definition is_lower (c : char) : bool := ((97 <=? c) && (c <=? 122))%N.

(** The shape the compile and the provided pattern share. *)
Definition keyword_re (kw : text) : regex :=
  seq [Group 1 (Alt Bol (One Space)); Lit kw;
       Group 2 (Alt (One Space) (One (Chr (ch "("))))].

(** A build file in capitals. *)
Definition shouted : text :=
  cps ("APPLY PLUGIN: 'MAVEN'" ++ nl ++ "JCENTER()" ++ nl
       ++ "COMPILE 'X'")%string.


Definition URL_KEY : text := cps "distributionUrl=".
Definition GRADLE_DASH : text := cps "gradle-".

(** A wrapper content: [pre], then the key, [mid], [gradle-], the version
    [v], a hyphen and [tail]. *)
Definition wrapper_content (pre mid v tail : text) : text :=
  pre ++ URL_KEY ++ mid ++ GRADLE_DASH ++ v ++ ch "-" :: tail.

(** A distribution URL in which [gradle-] and a version stand twice. *)
Definition wrapper_line : text :=
  cps "distributionUrl=https\://mirror/gradle-7.6-cache/gradle-8.10-bin.zip".

(** *** Files and plugins *)

(** The findings of the file [f], as the loops of [main] get them. *)
Definition hits_in (w : world) (f : path) : list finding :=
  match scan_text_for_rules (read_text w f) with
  | Ok hits => hits
  | Raise _ => []
  end.

(** What the file [f] adds to the list the file loop builds. *)
Definition entry_of (w : world) (f : path)
  : list (path * list finding) :=
  match hits_in w f with
  | [] => []
  | h :: hs => [(f, h :: hs)]
  end.

(** [p in seen], for the [seen] of [find_files]. *)
Definition seen_before (seen_ps : list path) (p : path) : bool :=
  existsb (path_eqb p) seen_ps.

Definition is_object (v : json) : Prop :=
  match v with
  | JObj _ => True
  | _ => False
  end.

(** What an entry of the manifest, an object, adds to the plugin list. *)
Definition plugin_of (v : json) : list plugin :=
  match v with
  | JObj items =>
      let name := match lookup (cps "name") items with
                  | Some x => x
                  | None => JNull
                  end in
      let pth := match lookup (cps "path") items with
                 | Some x => x
                 | None => JNull
                 end in
      if truth name && truth pth then [Plugin name pth] else []
  | _ => []
  end.

(** A manifest with the android plugin entries [entries]. *)
Definition manifest_of (entries : list json) : json :=
  JObj [(cps "plugins", JObj [(cps "android", JArr entries)])].

(** The plugin directory a plugin's declared path names. *)
Definition declared_base (w : world) (p : plugin) : option path :=
  match p_path p with
  | JStr s => Some (expanduser w (to_path w s))
  | _ => None
  end.

(** A project whose settings file, found by two of the globs, calls
    [jcenter()]. *)
Definition settings_world : world :=
  small_world
    [pubspec;
     (proj // "android" // "settings.gradle", Some (cps "jcenter()"))]
    [proj // "android"] [].

(** Two entries of a manifest: a plugin with its path, and one without. *)
Definition foo_and_bar : list json :=
  [JObj [(cps "name", JStr (cps "foo"));
         (cps "path", JStr (cps "/plugins/foo"))];
   JObj [(cps "name", JStr (cps "bar"))]].

(** A project with one plugin, declared at a path that exists and holds a
    build file with the deprecated maven plugin. *)
Definition plugin_world : world :=
  small_world
    [pubspec;
     (manifest_path, Some (cps "M"));
     ([cps "/plugins/foo"; cps "android"; cps "build.gradle"],
      Some (cps "apply plugin: 'maven'"))]
    [proj // "android"; [cps "/plugins/foo"];
     [cps "/plugins/foo"; cps "android"]]
    [(cps "M", manifest_of foo_and_bar)].

(** A project whose manifest has an entry that is not an object, and one
    whose plugin has a number for its path. *)
Definition bad_entry_world : world :=
  small_world [pubspec; (manifest_path, Some (cps "M"))]
    [proj // "android"]
    [(cps "M",
      manifest_of
        [JObj [(cps "name", JStr (cps "foo"));
               (cps "path", JStr (cps "/plugins/foo"))];
         JStr (cps "bar")])].

Definition bad_path_world : world :=
  small_world [pubspec; (manifest_path, Some (cps "M"))]
    [proj // "android"]
    [(cps "M",
      manifest_of
        [JObj [(cps "name", JStr (cps "foo")); (cps "path", JInt 5)]])].

(** The decoded manifests that [parse_plugins] reads without raising: an
    object whose [plugins] member, if any, is an object whose [android]
    member, if any, is false as a condition or a list of objects. *)
Definition well_shaped (data : json) : Prop :=
  match data with
  | JObj items =>
      match lookup (cps "plugins") items with
      | None => True
      | Some (JObj members) =>
          match lookup (cps "android") members with
          | None => True
          | Some v =>
              truth v = false \/
              exists entries, v = JArr entries /\ Forall is_object entries
          end
      | Some _ => False
      end
  | _ => False
  end.

(** *** Printed text *)

(** The text holds an escape character. *)
Definition has_esc (t : text) : bool := existsb (N.eqb Report.esc) t.

(** Neither the title nor the advice of the finding holds one. *)
Definition plain_issue (f : finding) : Prop :=
  has_esc (snd (fst f)) = false /\ has_esc (snd f) = false.

(** [root] and then [rel]. *)
Definition under (root rel : path) : path := root ++ rel.

(** A path written with slashes. *)
Fixpoint slashed (p : path) : text :=
  match p with
  | [] => cps "."
  | [a] => a
  | a :: p' => a ++ cps "/" ++ slashed p'
  end.

(* ------------------------------------------------------------------ *)
(** ** The matcher, constructor by constructor *)

Section RunFacts.

Implicit Types (st : mstate) (cs : cset) (r : regex).

Lemma lit_from_some s : forall sn rs sn' rs',
  lit_from s sn rs = Some (sn', rs') <-> rs = s ++ rs' /\ sn' = rev s ++ sn.
Proof.
  induction s as [|x s IH]; intros sn rs sn' rs'; simpl.
  - split.
    + intros H; inversion H; auto.
    + intros [-> ->]; reflexivity.
  - destruct rs as [|y rs].
    + split; [discriminate | intros [H _]; discriminate].
    + destruct (N.eqb_spec x y) as [->|Hxy].
      * rewrite IH, <- app_assoc. simpl. split.
        -- intros [-> ->]; auto.
        -- intros [H ->]; inversion H; subst; auto.
      * split; [discriminate | intros [H _]; inversion H; congruence].
Qed.

Lemma in_run_lit s st st' :
  In st' (run (Lit s) st) <->
  exists tl, rest st = s ++ tl /\
             st' = MState (rev s ++ seen st) tl (caps st).
Proof.
  simpl. destruct (lit_from s (seen st) (rest st)) as [[sn rs]|] eqn:E.
  - apply lit_from_some in E. destruct E as [E1 E2]. simpl. split.
    + intros [<-|[]]. exists rs. subst; auto.
    + intros (tl & H1 & ->). left. rewrite E1 in H1.
      apply app_inv_head in H1. subst. reflexivity.
  - split; [intros [] | intros (tl & H1 & H2)].
    assert (lit_from s (seen st) (rest st) = Some (rev s ++ seen st, tl))
      by (apply lit_from_some; auto).
    congruence.
Qed.

Lemma in_run_one cs st st' :
  In st' (run (One cs) st) <->
  exists c tl, cs_match cs c = true /\ rest st = c :: tl /\
               st' = MState (c :: seen st) tl (caps st).
Proof.
  simpl. destruct (rest st) as [|c rs'].
  - split; [intros [] | intros (c & tl & _ & H & _); discriminate].
  - destruct (cs_match cs c) eqn:E; simpl.
    + split.
      * intros [<-|[]]. exists c, rs'; auto.
      * intros (c' & tl & _ & H & ->). inversion H; subst. auto.
    + split; [intros [] | intros (c' & tl & Hc & H & _)].
      inversion H; subst; congruence.
Qed.

Lemma in_star_from cs g st' : forall rs sn,
  In st' (star_from cs sn rs g) <->
  exists taken tl, forallb (cs_match cs) taken = true /\
                   rs = taken ++ tl /\
                   st' = MState (rev taken ++ sn) tl g.
Proof.
  induction rs as [|c rs IH]; intros sn; simpl.
  - split.
    + intros [<-|[]]. exists [], []; simpl; auto.
    + intros (taken & tl & _ & H & ->). symmetry in H.
      apply app_eq_nil in H. destruct H as [-> ->]. auto.
  - destruct (cs_match cs c) eqn:E.
    + rewrite in_app_iff, IH. simpl. split.
      * intros [(taken & tl & Ht & -> & ->)|[<-|[]]].
        -- exists (c :: taken), tl. simpl.
           rewrite E, Ht, <- app_assoc. auto.
        -- exists [], (c :: rs); simpl; auto.
      * intros ([|c' taken] & tl & Ht & H & ->); simpl in *.
        -- right; left. rewrite <- H. reflexivity.
        -- left. inversion H; subst.
           apply andb_true_iff in Ht. destruct Ht as [_ Ht].
           exists taken, tl. rewrite <- app_assoc. auto.
    + split.
      * intros [<-|[]]. exists [], (c :: rs); simpl; auto.
      * intros ([|c' taken] & tl & Ht & H & ->); simpl in *.
        -- left. rewrite <- H. reflexivity.
        -- inversion H; subst. rewrite E in Ht. discriminate.
Qed.

Lemma in_run_star cs st st' :
  In st' (run (Star cs) st) <->
  exists taken tl, forallb (cs_match cs) taken = true /\
                   rest st = taken ++ tl /\
                   st' = MState (rev taken ++ seen st) tl (caps st).
Proof. simpl. apply in_star_from. Qed.

Lemma in_run_plus cs st st' :
  In st' (run (Plus cs) st) <->
  exists c taken tl, forallb (cs_match cs) (c :: taken) = true /\
                     rest st = (c :: taken) ++ tl /\
                     st' = MState (rev (c :: taken) ++ seen st) tl (caps st).
Proof.
  simpl run. destruct (rest st) as [|c rs'].
  - split; [intros [] | intros (c & tk & tl & _ & H & _); discriminate].
  - destruct (cs_match cs c) eqn:E.
    + rewrite in_star_from. split.
      * intros (taken & tl & Ht & -> & ->). exists c, taken, tl. simpl.
        rewrite E, Ht, <- app_assoc. auto.
      * intros (c' & taken & tl & Ht & H & ->). simpl in H.
        inversion H; subst.
        simpl in Ht. apply andb_true_iff in Ht. destruct Ht as [_ Ht].
        exists taken, tl. simpl. rewrite <- app_assoc. auto.
    + split; [intros [] | intros (c' & taken & tl & Ht & H & _)].
      simpl in H. inversion H; subst. simpl in Ht. rewrite E in Ht.
      discriminate.
Qed.

Lemma in_run_bol st st' :
  In st' (run Bol st) <-> at_bol st = true /\ st' = st.
Proof.
  simpl. destruct (at_bol st); simpl.
  - split; [intros [<-|[]]; auto | intros [_ ->]; auto].
  - split; [intros [] | intros [H _]; discriminate].
Qed.

Lemma in_run_seq r1 r2 st st' :
  In st' (run (Seq r1 r2) st) <->
  exists st1, In st1 (run r1 st) /\ In st' (run r2 st1).
Proof. simpl. apply in_flat_map. Qed.

Lemma in_run_alt r1 r2 st st' :
  In st' (run (Alt r1 r2) st) <-> In st' (run r1 st) \/ In st' (run r2 st).
Proof. simpl. apply in_app_iff. Qed.

Lemma in_run_group n r st st' :
  In st' (run (Group n r) st) <->
  exists st1, In st1 (run r st) /\
    st' = MState (seen st1) (rest st1)
            (set_cap n (firstn (length (rest st) - length (rest st1))
                          (rest st)) (caps st1)).
Proof.
  simpl. rewrite in_map_iff. split; intros (st1 & H1 & H2).
  - exists st1; auto.
  - exists st1; auto.
Qed.

(** Every way through [r] consumes a stretch of the text ahead. *)
Lemma run_consumes r : forall st st',
  In st' (run r st) ->
  exists mid, rest st = mid ++ rest st' /\ seen st' = rev mid ++ seen st.
Proof.
  induction r as [s|cs|cs|cs| |r1 IH1 r2 IH2|r1 IH1 r2 IH2|n r IH];
    intros st st' H.
  - apply in_run_lit in H. destruct H as (tl & H & ->). exists s; auto.
  - apply in_run_one in H. destruct H as (c & tl & _ & H & ->).
    exists [c]; auto.
  - apply in_run_star in H. destruct H as (tk & tl & _ & H & ->).
    exists tk; auto.
  - apply in_run_plus in H. destruct H as (c & tk & tl & _ & H & ->).
    exists (c :: tk); auto.
  - apply in_run_bol in H. destruct H as [_ ->]. exists []; auto.
  - apply in_run_seq in H. destruct H as (st1 & H1 & H2).
    destruct (IH1 _ _ H1) as (m1 & E1 & S1).
    destruct (IH2 _ _ H2) as (m2 & E2 & S2).
    exists (m1 ++ m2). rewrite E1, E2, S2, S1, rev_app_distr, !app_assoc.
    auto.
  - apply in_run_alt in H. destruct H as [H|H]; eauto.
  - apply in_run_group in H. destruct H as (st1 & H1 & ->). simpl. eauto.
Qed.

Lemma firstn_consumed (mid tl : text) :
  firstn (length (mid ++ tl) - length tl) (mid ++ tl) = mid.
Proof.
  rewrite length_app, Nat.add_sub, firstn_app, Nat.sub_diag, firstn_all.
  simpl. apply app_nil_r.
Qed.

(** What a group around a greedy run of one class captures. *)
Lemma in_run_group_plus n cs st st' :
  In st' (run (Group n (Plus cs)) st) <->
  exists c taken tl, forallb (cs_match cs) (c :: taken) = true /\
    rest st = (c :: taken) ++ tl /\
    st' = MState (rev (c :: taken) ++ seen st) tl
            (set_cap n (c :: taken) (caps st)).
Proof.
  rewrite in_run_group. split.
  - intros (st1 & H1 & ->). apply in_run_plus in H1.
    destruct H1 as (c & tk & tl & Hc & E & ->). exists c, tk, tl.
    simpl rest. rewrite E, firstn_consumed. auto.
  - intros (c & tk & tl & Hc & E & ->).
    exists (MState (rev (c :: tk) ++ seen st) tl (caps st)). split.
    + apply in_run_plus. exists c, tk, tl. auto.
    + simpl rest. simpl seen. simpl caps. rewrite E, firstn_consumed.
      reflexivity.
Qed.

End RunFacts.

(** Takes the first regular expression off a sequence in [H]. *)
Ltac peel H :=
  let s := fresh "s" in
  let H1 := fresh "H" in
  apply in_run_seq in H; destruct H as (s & H1 & H);
  first
    [ apply in_run_lit in H1; destruct H1 as (? & ? & H1)
    | apply in_run_one in H1; destruct H1 as (? & ? & ? & ? & H1)
    | apply in_run_star in H1; destruct H1 as (? & ? & ? & ? & H1)
    | apply in_run_plus in H1; destruct H1 as (? & ? & ? & ? & ? & H1)
    | apply in_run_group_plus in H1; destruct H1 as (? & ? & ? & ? & ? & H1)
    | apply in_run_bol in H1; destruct H1 as (? & H1) ];
  subst s; simpl rest in *; simpl seen in *; simpl caps in *.

(** ** Searching *)

Section SearchFacts.

Variable r : regex.

(** A successful search comes from an attempt that succeeds at some
    position, with every attempt to its left failing. *)
Lemma search_from_some : forall rs sn m,
  search_from r sn rs = Some m ->
  exists pre post st' tl,
    rs = pre ++ post /\
    run r (MState (rev pre ++ sn) post []) = st' :: tl /\
    m = RMatch (length sn + length pre)
          (firstn (length post - length (rest st')) post) (caps st') /\
    (forall p1 p2 x, pre = p1 ++ x :: p2 ->
       run r (MState (rev p1 ++ sn) (x :: p2 ++ post) []) = []).
Proof.
  induction rs as [|c rs IH]; intros sn m; simpl.
  - destruct (run r (MState sn [] [])) as [|st' tl] eqn:E; [discriminate|].
    intros H; inversion H; subst. exists [], [], st', tl. simpl.
    rewrite Nat.add_0_r. repeat split; auto.
    intros [|? ?] ? ? ?; discriminate.
  - destruct (run r (MState sn (c :: rs) [])) as [|st' tl] eqn:E.
    + intros H. apply IH in H.
      destruct H as (pre & post & st' & tl & -> & Hr & -> & Hmin).
      exists (c :: pre), post, st', tl. simpl.
      rewrite <- app_assoc. simpl. repeat split; auto.
      * f_equal. lia.
      * intros [|y p1] p2 x Hp; simpl in Hp; inversion Hp; subst.
        -- exact E.
        -- simpl. rewrite <- app_assoc. simpl. eapply Hmin. reflexivity.
    + intros H; inversion H; subst. exists [], (c :: rs), st', tl. simpl.
      rewrite Nat.add_0_r. repeat split; auto.
      intros [|? ?] ? ? ?; discriminate.
Qed.

(** A failed search: the attempt fails at every position. *)
Lemma search_from_none : forall rs sn,
  search_from r sn rs = None <->
  forall pre post, rs = pre ++ post ->
    run r (MState (rev pre ++ sn) post []) = [].
Proof.
  induction rs as [|c rs IH]; intros sn; simpl.
  - destruct (run r (MState sn [] [])) as [|st' tl] eqn:E.
    + split; auto. intros _ pre post H. symmetry in H.
      apply app_eq_nil in H. destruct H as [-> ->]. exact E.
    + split; [discriminate|]. intros H. specialize (H [] [] eq_refl).
      simpl in H. congruence.
  - destruct (run r (MState sn (c :: rs) [])) as [|st' tl] eqn:E.
    + rewrite IH. split.
      * intros H [|x pre] post Hp; simpl in *.
        -- subst post. exact E.
        -- inversion Hp; subst. rewrite <- app_assoc. simpl. apply H.
           reflexivity.
      * intros H pre post ->. specialize (H (c :: pre) post eq_refl).
        simpl in H. rewrite <- app_assoc in H. exact H.
    + split; [discriminate|]. intros H. specialize (H [] _ eq_refl).
      simpl in H. congruence.
Qed.

Lemma search_some (t : text) (m : rmatch) :
  search r t = Some m ->
  exists pre post st' tl,
    t = pre ++ post /\
    run r (MState (rev pre) post []) = st' :: tl /\
    m_caps m = caps st'.
Proof.
  intros H. apply search_from_some in H.
  destruct H as (pre & post & st' & tl & -> & Hr & -> & _).
  rewrite app_nil_r in Hr. exists pre, post, st', tl. auto.
Qed.

(** An attempt that succeeds somewhere makes the search succeed. *)
Lemma search_finds (pre post : text) (st' : mstate) :
  In st' (run r (MState (rev pre) post [])) ->
  search r (pre ++ post) <> None.
Proof.
  intros H Hn. unfold search in Hn.
  rewrite search_from_none in Hn. specialize (Hn pre post eq_refl).
  rewrite app_nil_r in Hn. rewrite Hn in H. destruct H.
Qed.

End SearchFacts.

(* ------------------------------------------------------------------ *)
(** ** The scanner, rule by rule *)

Section Digits.

Lemma decimal_in_range zeros c d :
  decimal_in zeros c = Some d -> (0 <= d < 10)%Z.
Proof.
  induction zeros as [|z zeros IH]; simpl; [discriminate|].
  destruct ((z <=? c)%N && (c <? z + 10)%N) eqn:E; auto.
  apply andb_true_iff in E. destruct E as [E1 E2].
  apply N.leb_le in E1. apply N.ltb_lt in E2.
  intros H; inversion H; subst. lia.
Qed.

Lemma digits_value_ok : forall s acc,
  (0 <= acc)%Z -> forallb is_digit s = true ->
  exists v, digits_value acc s = Ok v /\ (0 <= v)%Z.
Proof.
  induction s as [|c s IH]; intros acc Ha Hs; cbn [digits_value].
  - eauto.
  - simpl in Hs. apply andb_true_iff in Hs. destruct Hs as [Hc Hs].
    unfold is_digit in Hc.
    destruct (decimal_value c) as [d|] eqn:E; [|discriminate].
    apply decimal_in_range in E. apply IH; auto. lia.
Qed.

(** [int] reads every group that [\d+] captures. *)
Lemma int_digits c s :
  forallb is_digit (c :: s) = true ->
  exists v, int (Some (c :: s)) = Ok v /\ (0 <= v)%Z.
Proof. intros H. unfold int. apply digits_value_ok; auto. lia. Qed.

End Digits.

Section Groups.

(** The groups of a match of the AGP pattern. *)
Lemma agp_groups st st' :
  In st' (run agp_re st) ->
  exists c d, forallb is_digit (c :: d) = true /\
              get_cap 1 (caps st') = Some (c :: d).
Proof.
  unfold agp_re. cbn [seq]. intros H. do 5 peel H.
  apply in_run_one in H. destruct H as (k & tl & _ & _ & ->).
  eexists _, _. split; [eassumption | reflexivity].
Qed.

(** The groups of a match of the Kotlin pattern. *)
Lemma kotlin_groups st st' :
  In st' (run kotlin_re st) ->
  exists c d c2 d2,
    forallb is_digit (c :: d) = true /\
    forallb is_digit (c2 :: d2) = true /\
    get_cap 1 (caps st') = Some (c :: d) /\
    get_cap 2 (caps st') = Some (c2 :: d2).
Proof.
  unfold kotlin_re. cbn [seq]. intros H. do 6 peel H.
  apply in_run_group_plus in H.
  destruct H as (c2 & d2 & tl & Hd2 & _ & ->).
  eexists _, _, c2, d2. repeat split; [eassumption | exact Hd2].
Qed.

Lemma search_agp_groups t m :
  search agp_re t = Some m ->
  exists c d, forallb is_digit (c :: d) = true /\ group m 1 = Some (c :: d).
Proof.
  intros H. apply search_some in H.
  destruct H as (pre & post & st' & tl & _ & Hr & Hc).
  unfold group. rewrite Hc. eapply agp_groups. rewrite Hr. left; reflexivity.
Qed.

Lemma search_kotlin_groups t m :
  search kotlin_re t = Some m ->
  exists c d c2 d2,
    forallb is_digit (c :: d) = true /\
    forallb is_digit (c2 :: d2) = true /\
    group m 1 = Some (c :: d) /\ group m 2 = Some (c2 :: d2).
Proof.
  intros H. apply search_some in H.
  destruct H as (pre & post & st' & tl & _ & Hr & Hc).
  unfold group. rewrite Hc. eapply kotlin_groups. rewrite Hr.
  left; reflexivity.
Qed.

End Groups.

Section Ink.

Lemma has_ink_app a b : has_ink (a ++ b) = has_ink a || has_ink b.
Proof. apply existsb_app. Qed.

Lemma blank_no_ink t : forallb is_space t = true -> has_ink t = false.
Proof.
  induction t as [|c t IH]; simpl; auto.
  intros H. apply andb_true_iff in H. destruct H as [-> H]. simpl. auto.
Qed.

Lemma inked_consumes r : inked r = true -> forall st st',
  In st' (run r st) ->
  exists mid, rest st = mid ++ rest st' /\ has_ink mid = true.
Proof.
  induction r as [s|cs|cs|cs| |r1 IH1 r2 IH2|r1 IH1 r2 IH2|n r IH];
    simpl inked; intros Hi st st' H; try discriminate.
  - apply in_run_lit in H. destruct H as (tl & H & ->). exists s; auto.
  - destruct cs; try discriminate.
    apply in_run_one in H. destruct H as (k & tl & Hk & H & ->).
    simpl in Hk. apply N.eqb_eq in Hk. subst k. exists [c]. simpl.
    rewrite Hi. auto.
  - apply in_run_seq in H. destruct H as (st1 & H1 & H2).
    apply orb_true_iff in Hi. destruct Hi as [Hi|Hi].
    + destruct (IH1 Hi _ _ H1) as (m1 & E1 & K1).
      destruct (run_consumes _ _ _ H2) as (m2 & E2 & _).
      exists (m1 ++ m2). rewrite E1, E2, has_ink_app, K1, app_assoc. auto.
    + destruct (run_consumes _ _ _ H1) as (m1 & E1 & _).
      destruct (IH2 Hi _ _ H2) as (m2 & E2 & K2).
      exists (m1 ++ m2). rewrite E1, E2, has_ink_app, K2, app_assoc.
      rewrite orb_true_r. auto.
  - apply andb_true_iff in Hi. destruct Hi as [Hi1 Hi2].
    apply in_run_alt in H. destruct H as [H|H]; eauto.
  - apply in_run_group in H. destruct H as (st1 & H1 & ->). simpl. eauto.
Qed.

(** Such a pattern is not found in a blank text. *)
Lemma search_blank r t :
  inked r = true -> forallb is_space t = true -> search r t = None.
Proof.
  intros Hi Hb. destruct (search r t) as [m|] eqn:E; auto.
  apply search_some in E.
  destruct E as (pre & post & st' & tl & -> & Hr & _).
  assert (Hin : In st' (run r (MState (rev pre) post [])))
    by (rewrite Hr; left; reflexivity).
  apply (inked_consumes _ Hi) in Hin. destruct Hin as (mid & E & K).
  simpl in E. apply blank_no_ink in Hb.
  rewrite E, !has_ink_app, K, orb_true_r in Hb. discriminate.
Qed.

End Ink.

Section RuleTurns.

Variable t : text.

(** A rule without a version gate fires when its pattern is found. *)
Lemma scan_rule_plain title pat advice sev :
  startswith AGP_PREFIX title = false ->
  startswith KOTLIN_PREFIX title = false ->
  scan_rule t (title, pat, advice, sev) =
  Ok (match search pat t with
      | Some _ => [(sev, title, advice)]
      | None => []
      end).
Proof.
  intros H1 H2. unfold scan_rule, agp_gate, kotlin_gate.
  fold AGP_PREFIX KOTLIN_PREFIX. rewrite H1, H2.
  destruct (search pat t); reflexivity.
Qed.

Lemma scan_rule_agp :
  scan_rule t agp_rule =
  match search agp_re t with
  | None => Ok []
  | Some m =>
      major <- int (group m 1) ;;
      Ok (if (major >=? 8)%Z then [] else [finding_of agp_rule])
  end.
Proof.
  unfold scan_rule, agp_rule, agp_gate, kotlin_gate.
  fold AGP_PREFIX KOTLIN_PREFIX.
  replace (startswith AGP_PREFIX (cps "Old AGP classpath (<8)")) with true
    by (vm_compute; reflexivity).
  replace (startswith KOTLIN_PREFIX (cps "Old AGP classpath (<8)")) with false
    by (vm_compute; reflexivity).
  destruct (search agp_re t) as [m|]; auto.
  destruct (int (group m 1)) as [major|e]; auto. cbn [bind].
  destruct (major >=? 8)%Z; reflexivity.
Qed.

Lemma scan_rule_kotlin :
  scan_rule t kotlin_rule =
  match search kotlin_re t with
  | None => Ok []
  | Some m =>
      major <- int (group m 1) ;;
      minor <- int (group m 2) ;;
      Ok (if ((major >? 1) || (major =? 1) && (minor >=? 9))%Z
          then [] else [finding_of kotlin_rule])
  end.
Proof.
  unfold scan_rule, kotlin_rule, agp_gate, kotlin_gate.
  fold AGP_PREFIX KOTLIN_PREFIX.
  replace (startswith AGP_PREFIX (cps "Old Kotlin plugin (<1.9)")) with false
    by (vm_compute; reflexivity).
  replace (startswith KOTLIN_PREFIX (cps "Old Kotlin plugin (<1.9)"))
    with true by (vm_compute; reflexivity).
  destruct (search kotlin_re t) as [m|]; auto. cbn [bind].
  destruct (int (group m 1)) as [major|e]; auto. cbn [bind].
  destruct (int (group m 2)) as [minor|e]; auto. cbn [bind].
  destruct ((major >? 1) || (major =? 1) && (minor >=? 9))%Z; reflexivity.
Qed.

(** Every turn of the loop returns, with no finding or with the rule's. *)
Lemma scan_rule_shape r :
  In r RULES ->
  scan_rule t r = Ok (if fires t r then [finding_of r] else []).
Proof.
  assert (plain : forall title pat advice sev,
            startswith AGP_PREFIX title = false ->
            startswith KOTLIN_PREFIX title = false ->
            scan_rule t (title, pat, advice, sev) =
            Ok (if fires t (title, pat, advice, sev)
                then [finding_of (title, pat, advice, sev)] else [])).
  { intros title pat advice sev H1 H2. unfold fires.
    rewrite scan_rule_plain by assumption.
    destruct (search pat t); reflexivity. }
  intros [<-|[<-|[<-|[<-|[<-|[<-|[<-|[<-|[]]]]]]]]];
    try (apply plain; vm_compute; reflexivity).
  - unfold fires. rewrite scan_rule_agp.
    destruct (search agp_re t) as [m|] eqn:E; auto.
    destruct (search_agp_groups _ E) as (c & d & Hd & ->).
    destruct (int_digits _ _ Hd) as (v & -> & _). cbn [bind].
    destruct (v >=? 8)%Z; reflexivity.
  - unfold fires. rewrite scan_rule_kotlin.
    destruct (search kotlin_re t) as [m|] eqn:E; auto.
    destruct (search_kotlin_groups _ E)
      as (c & d & c2 & d2 & Hd & Hd2 & -> & ->).
    destruct (int_digits _ _ Hd) as (v & -> & _).
    destruct (int_digits _ _ Hd2) as (v2 & -> & _). cbn [bind].
    destruct ((v >? 1) || (v =? 1) && (v2 >=? 9))%Z; reflexivity.
Qed.

Lemma scan_rules_eq rules :
  (forall r, In r rules -> In r RULES) ->
  forall hits,
    scan_rules rules t hits =
    Ok (hits ++ map finding_of (filter (fires t) rules)).
Proof.
  induction rules as [|r rules IH]; intros Hin hits; simpl.
  - rewrite app_nil_r. reflexivity.
  - rewrite (@scan_rule_shape r) by (apply Hin; left; reflexivity).
    cbn [bind]. rewrite IH by (intros; apply Hin; right; assumption).
    destruct (fires t r); simpl.
    + rewrite <- app_assoc. reflexivity.
    + rewrite app_nil_r. reflexivity.
Qed.

(** The scanner returns the findings of the rules that fire, in the order
    of the table. *)
Lemma scan_text_eq :
  scan_text_for_rules t = Ok (map finding_of (filter (fires t) RULES)).
Proof. unfold scan_text_for_rules. rewrite scan_rules_eq; auto. Qed.

Lemma fires_plain r :
  In r RULES -> r <> agp_rule -> r <> kotlin_rule ->
  fires t r = match search (r_pattern r) t with
              | Some _ => true
              | None => false
              end.
Proof.
  intros [<-|[<-|[<-|[<-|[<-|[<-|[<-|[<-|[]]]]]]]]] Ha Hk;
    try congruence; unfold fires;
    match goal with
    | |- context [scan_rule t ?r] => unfold r
    end;
    rewrite scan_rule_plain by (vm_compute; reflexivity);
    cbn [r_pattern]; destruct (search _ t); reflexivity.
Qed.

End RuleTurns.

Section Titles.

Lemma title_of_finding r : f_title (finding_of r) = r_title r.
Proof. destruct r as [[[ti p] a] s]. reflexivity. Qed.

Lemma text_eqb_refl a : text_eqb a a = true.
Proof.
  induction a as [|x a IH]; simpl; auto. rewrite N.eqb_refl. auto.
Qed.

Variable keep : rule -> bool.

Lemma with_title_absent ti l :
  existsb (fun r' => text_eqb (r_title r') ti) l = false ->
  with_title ti (map finding_of (filter keep l)) = [].
Proof.
  induction l as [|r l IH]; simpl; auto.
  intros H. apply orb_false_iff in H. destruct H as [H1 H2].
  destruct (keep r); simpl; auto.
  rewrite title_of_finding, H1. auto.
Qed.

Lemma with_title_filter l : titles_distinct l = true -> forall r,
  In r l ->
  with_title (r_title r) (map finding_of (filter keep l)) =
  if keep r then [finding_of r] else [].
Proof.
  induction l as [|r0 l IH]; intros Hd r Hin; [destruct Hin|].
  simpl in Hd. apply andb_true_iff in Hd. destruct Hd as [Hd1 Hd2].
  apply negb_true_iff in Hd1.
  assert (Hl : existsb (fun r' => text_eqb (r_title r') (r_title r0)) l
               = false).
  { rewrite <- not_true_iff_false in *. intros H. apply Hd1.
    apply existsb_exists in H. destruct H as (x & Hx & E).
    apply existsb_exists. exists x. rewrite E. auto. }
  destruct Hin as [->|Hin].
  - simpl filter. destruct (keep r) eqn:K.
    + unfold with_title. cbn [map filter].
      rewrite title_of_finding, text_eqb_refl. f_equal.
      apply with_title_absent. exact Hl.
    + apply with_title_absent. exact Hl.
  - assert (Hne : text_eqb (r_title r0) (r_title r) = false).
    { rewrite <- not_true_iff_false in *. intros H. apply Hd1.
      apply existsb_exists. exists r. rewrite H, orb_true_r. auto. }
    simpl filter. destruct (keep r0).
    + unfold with_title. cbn [map filter].
      rewrite title_of_finding, Hne. apply IH; auto.
    + apply IH; auto.
Qed.

Lemma rules_titles_distinct : titles_distinct RULES = true.
Proof. vm_compute. reflexivity. Qed.

(** Among the findings of the rules kept, those with the title of [r]. *)
Lemma with_title_rules r :
  In r RULES ->
  with_title (r_title r) (map finding_of (filter keep RULES)) =
  if keep r then [finding_of r] else [].
Proof. apply with_title_filter. exact rules_titles_distinct. Qed.

Lemma in_with_title f hits :
  In f hits -> In f (with_title (f_title f) hits).
Proof.
  intros H. unfold with_title. apply filter_In. split; auto.
  apply text_eqb_refl.
Qed.

Lemma in_kept r :
  In r RULES ->
  (In (finding_of r) (map finding_of (filter keep RULES)) <-> keep r = true).
Proof.
  intros Hr. split.
  - intros H. apply in_with_title in H.
    rewrite title_of_finding, (with_title_rules Hr) in H.
    destruct (keep r); [reflexivity | destruct H].
  - intros K. apply in_map. apply filter_In. auto.
Qed.

End Titles.

Section Gates.

Variable t : text.

(** What decides the AGP rule: the major version of the first match. *)
Lemma fires_agp m :
  search agp_re t = Some m ->
  exists d major,
    group m 1 = Some d /\ int (Some d) = Ok major /\
    fires t agp_rule = (major <? 8)%Z.
Proof.
  intros E. destruct (search_agp_groups _ E) as (c & d & Hd & G).
  destruct (int_digits _ _ Hd) as (v & Hv & _).
  exists (c :: d), v. repeat split; auto.
  unfold fires. rewrite scan_rule_agp, E, G, Hv. cbn [bind].
  rewrite Z.geb_leb, Z.ltb_antisym.
  destruct (8 <=? v)%Z; reflexivity.
Qed.

(** What decides the Kotlin rule: the version of the first match. *)
Lemma fires_kotlin m :
  search kotlin_re t = Some m ->
  exists d1 d2 major minor,
    group m 1 = Some d1 /\ group m 2 = Some d2 /\
    int (Some d1) = Ok major /\ int (Some d2) = Ok minor /\
    fires t kotlin_rule =
    ((major <? 1) || (major =? 1) && (minor <? 9))%Z.
Proof.
  intros E.
  destruct (search_kotlin_groups _ E)
    as (c & d & c2 & d2 & Hd & Hd2 & G1 & G2).
  destruct (int_digits _ _ Hd) as (v & Hv & _).
  destruct (int_digits _ _ Hd2) as (v2 & Hv2 & _).
  exists (c :: d), (c2 :: d2), v, v2. repeat split; auto.
  unfold fires. rewrite scan_rule_kotlin, E, G1, G2, Hv, Hv2. cbn [bind].
  rewrite Z.gtb_ltb, Z.geb_leb.
  destruct (Z.ltb_spec 1 v), (Z.eqb_spec v 1), (Z.leb_spec 9 v2),
    (Z.ltb_spec v 1), (Z.ltb_spec v2 9); simpl; try reflexivity; lia.
Qed.

End Gates.

(* ------------------------------------------------------------------ *)
(** ** Properties of the rule scanner *)

Lemma filter_none {A} (f : A -> bool) (l : list A) :
  (forall x, In x l -> f x = false) -> filter f l = [].
Proof.
  induction l as [|x l IH]; intros H; simpl; auto.
  rewrite (H x) by (left; reflexivity). apply IH. intros; apply H.
  right; assumption.
Qed.

Ltac in_rules := unfold RULES; cbn [In]; tauto.

(** C1. The findings come in the order of the rule table, whatever the order
    of the matches in the text: the result is the table's findings with some
    rows left out.  When the compile pattern and the jcenter pattern are
    both found, the compile finding comes before the jcenter finding, and
    they are the whole result when no other rule fires; so it is for a text
    in which [jcenter(] comes first. *)
Theorem findings_in_table_order :
  (forall t, exists keep : rule -> bool,
      scan_text_for_rules t = Ok (map finding_of (filter keep RULES)))
  /\ (forall t mc mj,
        search compile_re t = Some mc ->
        search jcenter_re t = Some mj ->
        (exists a b c,
            scan_text_for_rules t =
            Ok (a ++ finding_of compile_rule
                  :: b ++ finding_of jcenter_rule :: c))
        /\ (filter (fires t)
              [maven_rule; provided_rule; kae_rule; agp_rule; kotlin_rule;
               buildscript_rule] = [] ->
            scan_text_for_rules t =
            Ok [finding_of compile_rule; finding_of jcenter_rule]))
  /\ (let t := cps ("jcenter()" ++ nl ++ "compile 'x'")%string in
      exists mc mj,
        search compile_re t = Some mc /\ search jcenter_re t = Some mj /\
        m_start mj < m_start mc /\
        scan_text_for_rules t =
        Ok [finding_of compile_rule; finding_of jcenter_rule]).
Proof.
  split; [|split].
  - intros t. exists (fires t). apply scan_text_eq.
  - intros t mc mj Hc Hj.
    assert (Fc : fires t compile_rule = true).
    { rewrite fires_plain; [cbn [r_pattern compile_rule]; rewrite Hc; auto
                           | in_rules | discriminate | discriminate]. }
    assert (Fj : fires t jcenter_rule = true).
    { rewrite fires_plain; [cbn [r_pattern jcenter_rule]; rewrite Hj; auto
                           | in_rules | discriminate | discriminate]. }
    rewrite scan_text_eq. unfold RULES. cbn [filter]. rewrite Fc, Fj.
    split.
    + exists (map finding_of (filter (fires t) [maven_rule])),
             (map finding_of (filter (fires t) [provided_rule])),
             (map finding_of
                (filter (fires t)
                   [kae_rule; agp_rule; kotlin_rule; buildscript_rule])).
      cbn [filter].
      destruct (fires t maven_rule), (fires t provided_rule); reflexivity.
    + destruct (fires t maven_rule); [discriminate|].
      destruct (fires t provided_rule); [discriminate|].
      destruct (fires t kae_rule); [discriminate|].
      destruct (fires t agp_rule); [discriminate|].
      destruct (fires t kotlin_rule); [discriminate|].
      destruct (fires t buildscript_rule); [discriminate|].
      reflexivity.
  - eexists _, _. repeat split; try (vm_compute; reflexivity).
    vm_compute. lia.
Qed.

Lemma findings_in_table_order_witness :
  scan_text_for_rules (cps "jcenter( compile(") =
  Ok [finding_of compile_rule; finding_of jcenter_rule].
Proof.
  destruct findings_in_table_order as (_ & H & _).
  eapply H; vm_compute; reflexivity.
Defined.

(** C2. A rule gives at most one finding, however often its pattern occurs.
    A text in which the maven pattern is found (and the pattern is found in
    every text that holds a usage of it) has exactly one finding with that
    rule's title, of severity HIGH; so has a text with two usages. *)
Theorem one_finding_per_rule :
  (forall t r, In r RULES ->
      exists hits, scan_text_for_rules t = Ok hits /\
                   length (with_title (r_title r) hits) <= 1)
  /\ (forall t, search maven_re t <> None ->
        exists hits, scan_text_for_rules t = Ok hits /\
          with_title (r_title maven_rule) hits = [finding_of maven_rule] /\
          f_sev (finding_of maven_rule) = cps "HIGH")
  /\ (forall pre post ws1 ws2 q1 q2,
        ws1 <> [] ->
        forallb is_space ws1 = true -> forallb is_space ws2 = true ->
        cs_match quote q1 = true -> cs_match quote q2 = true ->
        search maven_re (pre ++ maven_usage ws1 ws2 q1 q2 ++ post) <> None)
  /\ scan_text_for_rules maven_twice = Ok [finding_of maven_rule].
Proof.
  split; [|split; [|split]].
  - intros t r Hr. eexists. split; [apply scan_text_eq|].
    rewrite (with_title_rules _ Hr). destruct (fires t r); simpl; lia.
  - intros t Hs. eexists. split; [apply scan_text_eq|].
    assert (Hm : In maven_rule RULES) by in_rules.
    rewrite (with_title_rules _ Hm).
    rewrite fires_plain; [|exact Hm|discriminate|discriminate].
    cbn [r_pattern maven_rule].
    destruct (search maven_re t); [split; reflexivity | congruence].
  - intros pre post ws1 ws2 q1 q2 Hne Hw1 Hw2 Hq1 Hq2.
    destruct ws1 as [|c ws1]; [congruence|].
    apply search_finds with
      (st' := MState (rev (maven_usage (c :: ws1) ws2 q1 q2) ++ rev pre)
                post []).
    unfold maven_re, maven_usage. cbn [seq].
    apply in_run_seq. eexists. split.
    { apply in_run_lit. eexists. split; [|reflexivity].
      cbn [rest]. rewrite <- app_assoc. reflexivity. }
    apply in_run_seq. eexists. split.
    { apply in_run_plus. exists c, ws1. eexists.
      split; [exact Hw1|]. split; [|reflexivity].
      cbn [rest]. rewrite <- app_assoc. reflexivity. }
    apply in_run_seq. eexists. split.
    { apply in_run_lit. eexists. split; [|reflexivity].
      cbn [rest]. rewrite <- app_assoc. reflexivity. }
    apply in_run_seq. eexists. split.
    { apply in_run_star. exists ws2. eexists.
      split; [exact Hw2|]. split; [|reflexivity].
      cbn [rest]. rewrite <- app_assoc. reflexivity. }
    apply in_run_seq. eexists. split.
    { apply in_run_one. exists q1. eexists.
      split; [exact Hq1|]. split; [|reflexivity].
      cbn [rest]. rewrite <- app_comm_cons. reflexivity. }
    apply in_run_seq. eexists. split.
    { apply in_run_lit. eexists. split; [|reflexivity].
      cbn [rest]. rewrite <- app_assoc. reflexivity. }
    apply in_run_one. exists q2, post. split; [exact Hq2|].
    split; [reflexivity|]. cbn [seen rest caps]. f_equal.
    repeat (rewrite ?rev_app_distr; cbn [rev app]).
    repeat rewrite <- app_assoc. reflexivity.
  - vm_compute. reflexivity.
Qed.

Lemma one_finding_per_rule_witness :
  exists hits,
    scan_text_for_rules (cps "apply plugin: 'maven' apply plugin: 'maven'")
    = Ok hits /\
    with_title (r_title maven_rule) hits = [finding_of maven_rule] /\
    f_sev (finding_of maven_rule) = cps "HIGH".
Proof.
  destruct one_finding_per_rule as (_ & H & _).
  apply H. vm_compute. discriminate.
Defined.

(** C3. When the AGP pattern is found, the digits its first match captures
    are read as a number, and the scan has the AGP finding, of severity HIGH,
    exactly when that number is below 8; from 8 on no finding has the rule's
    title.  So 7 is reported and 8, 9 and 10 are not. *)
Theorem agp_gate_is_numeric :
  (forall t m d,
      search agp_re t = Some m -> group m 1 = Some d ->
      exists major hits,
        int (Some d) = Ok major /\
        scan_text_for_rules t = Ok hits /\
        (In (finding_of agp_rule) hits <-> (major < 8)%Z) /\
        ((8 <= major)%Z -> with_title (r_title agp_rule) hits = []) /\
        f_sev (finding_of agp_rule) = cps "HIGH")
  /\ scan_text_for_rules (agp_line "7.4.2") = Ok [finding_of agp_rule]
  /\ scan_text_for_rules (agp_line "8.0.0") = Ok []
  /\ scan_text_for_rules (agp_line "9.1") = Ok []
  /\ scan_text_for_rules (agp_line "10.0.1") = Ok [].
Proof.
  split; [|repeat split; vm_compute; reflexivity].
  intros t m d Hs Hg.
  destruct (fires_agp _ Hs) as (d' & major & Hg' & Hi & Hf).
  assert (d' = d) by congruence. subst d'.
  assert (Ha : In agp_rule RULES) by in_rules.
  exists major. eexists. split; [exact Hi|].
  split; [apply scan_text_eq|].
  rewrite (in_kept _ Ha), (with_title_rules _ Ha), Hf.
  split; [apply Z.ltb_lt|]. split; [|reflexivity].
  intros H. apply Z.ltb_ge in H. rewrite H. reflexivity.
Qed.

Lemma agp_gate_is_numeric_witness :
  exists major hits,
    int (Some (cps "7")) = Ok major /\
    scan_text_for_rules (agp_line "7.4.2") = Ok hits /\
    (In (finding_of agp_rule) hits <-> (major < 8)%Z) /\
    ((8 <= major)%Z -> with_title (r_title agp_rule) hits = []) /\
    f_sev (finding_of agp_rule) = cps "HIGH".
Proof.
  destruct agp_gate_is_numeric as (H & _).
  eapply H; vm_compute; reflexivity.
Defined.

(** C4. When the Kotlin pattern is found, the scan has the Kotlin finding,
    of severity WARN, exactly when the pair (major, minor) its first match
    captures comes before (1, 9) in the order of pairs; from (1, 9) on, and
    for every major above 1, no finding has the rule's title.  So 1.8 is
    reported and 1.9 and 2.0 are not. *)
Theorem kotlin_gate_is_lexicographic :
  (forall t m d1 d2,
      search kotlin_re t = Some m ->
      group m 1 = Some d1 -> group m 2 = Some d2 ->
      exists major minor hits,
        int (Some d1) = Ok major /\ int (Some d2) = Ok minor /\
        scan_text_for_rules t = Ok hits /\
        (In (finding_of kotlin_rule) hits <->
         (major < 1 \/ major = 1 /\ minor < 9)%Z) /\
        ((1 < major \/ major = 1 /\ 9 <= minor)%Z ->
         with_title (r_title kotlin_rule) hits = []) /\
        f_sev (finding_of kotlin_rule) = cps "WARN")
  /\ scan_text_for_rules (kotlin_line "1.8.22") = Ok [finding_of kotlin_rule]
  /\ scan_text_for_rules (kotlin_line "1.9.0") = Ok []
  /\ scan_text_for_rules (kotlin_line "2.0.0") = Ok [].
Proof.
  split; [|repeat split; vm_compute; reflexivity].
  intros t m d1 d2 Hs Hg1 Hg2.
  destruct (fires_kotlin _ Hs)
    as (e1 & e2 & major & minor & G1 & G2 & I1 & I2 & Hf).
  assert (e1 = d1) by congruence. assert (e2 = d2) by congruence. subst.
  assert (Hk : In kotlin_rule RULES) by in_rules.
  exists major, minor. eexists. split; [exact I1|]. split; [exact I2|].
  split; [apply scan_text_eq|].
  rewrite (in_kept _ Hk), (with_title_rules _ Hk), Hf.
  split; [|split; [|reflexivity]].
  - rewrite orb_true_iff, andb_true_iff, !Z.ltb_lt, Z.eqb_eq. tauto.
  - intros H.
    destruct (Z.ltb_spec major 1), (Z.eqb_spec major 1),
      (Z.ltb_spec minor 9); simpl; try reflexivity; lia.
Qed.

Lemma kotlin_gate_is_lexicographic_witness :
  exists major minor hits,
    int (Some (cps "1")) = Ok major /\ int (Some (cps "8")) = Ok minor /\
    scan_text_for_rules (kotlin_line "1.8.22") = Ok hits /\
    (In (finding_of kotlin_rule) hits <->
     (major < 1 \/ major = 1 /\ minor < 9)%Z) /\
    ((1 < major \/ major = 1 /\ 9 <= minor)%Z ->
     with_title (r_title kotlin_rule) hits = []) /\
    f_sev (finding_of kotlin_rule) = cps "WARN".
Proof.
  destruct kotlin_gate_is_lexicographic as (H & _).
  eapply H; vm_compute; reflexivity.
Defined.

(** C5. In a text that is empty or all white space no pattern of the rule
    table is found, and the scan returns no finding. *)
Theorem blank_text_is_clean (t : text) :
  forallb is_space t = true ->
  (forall r, In r RULES -> search (r_pattern r) t = None) /\
  scan_text_for_rules t = Ok [].
Proof.
  intros Hb.
  assert (Hn : forall r, In r RULES -> search (r_pattern r) t = None).
  { intros r Hr. apply search_blank; auto.
    assert (Hall : forallb (fun r => inked (r_pattern r)) RULES = true)
      by (vm_compute; reflexivity).
    rewrite forallb_forall in Hall. auto. }
  split; [exact Hn|].
  rewrite scan_text_eq, filter_none; auto.
  intros r Hr. unfold fires, scan_rule.
  specialize (Hn r Hr). destruct r as [[[ti p] a] s]. cbn [r_pattern] in Hn.
  rewrite Hn. reflexivity.
Qed.

Lemma blank_text_is_clean_witness :
  (forall r, In r RULES ->
     search (r_pattern r) (cps ("  " ++ nl ++ " ")%string) = None) /\
  scan_text_for_rules (cps ("  " ++ nl ++ " ")%string) = Ok [].
Proof. apply blank_text_is_clean. vm_compute. reflexivity. Defined.

(** A match of the wrapper pattern, spelled out. *)
Lemma wrapper_match st st' :
  In st' (run WRAPPER_RE st) ->
  exists mid c v tl,
    rest st = cps "distributionUrl=" ++ mid ++ cps "gradle-" ++ (c :: v)
                ++ ch "-" :: tl /\
    forallb (cs_match Dot) mid = true /\
    forallb (cs_match version_chars) (c :: v) = true /\
    get_cap 1 (caps st') = Some (c :: v).
Proof.
  unfold WRAPPER_RE. cbn [seq]. intros H. do 4 peel H.
  apply in_run_one in H. destruct H as (k & tl & Hk & E & ->).
  cbn [cs_match] in Hk. apply N.eqb_eq in Hk. subst k.
  cbn [rest] in E. subst.
  eexists _, _, _, tl. split; [eassumption|]. auto.
Qed.

(** C6. Wrapper version extraction returns group 1 of the first match of the
    wrapper pattern, a non-empty run of digits and dots that stands in the
    content between [gradle-] and [-] after [distributionUrl=] on the same
    line, and nothing when the pattern is not found; it finds 8.10 in the
    content of the example, and nothing in a content in which
    [distributionUrl=] does not occur. *)
Theorem wrapper_version_extraction :
  (forall content,
      search WRAPPER_RE content = None -> wrapper_version_of content = None)
  /\ (forall content m,
        search WRAPPER_RE content = Some m ->
        wrapper_version_of content = group m 1 /\
        exists v mid, group m 1 = Some v /\ v <> [] /\
          forallb (cs_match version_chars) v = true /\
          forallb (cs_match Dot) mid = true /\
          occurs (cps "distributionUrl=" ++ mid ++ cps "gradle-" ++ v
                    ++ cps "-") content)
  /\ wrapper_version_of
       (cps "distributionUrl=https\://x/gradle-8.10-bin.zip")
     = Some (cps "8.10")
  /\ (forall content,
        ~ occurs (cps "distributionUrl=") content ->
        wrapper_version_of content = None).
Proof.
  assert (K : forall content m,
             search WRAPPER_RE content = Some m ->
             exists v mid, group m 1 = Some v /\ v <> [] /\
               forallb (cs_match version_chars) v = true /\
               forallb (cs_match Dot) mid = true /\
               occurs (cps "distributionUrl=" ++ mid ++ cps "gradle-" ++ v
                         ++ cps "-") content).
  { intros content m Hs. apply search_some in Hs.
    destruct Hs as (pre & post & st' & tl & -> & Hr & Hc).
    assert (Hin : In st' (run WRAPPER_RE (MState (rev pre) post [])))
      by (rewrite Hr; left; reflexivity).
    apply wrapper_match in Hin.
    destruct Hin as (mid & c & v & tl' & E & Hmid & Hv & Hg).
    exists (c :: v), mid. unfold group. rewrite Hc.
    repeat split; auto; [discriminate|].
    exists pre, tl'. cbn [rest] in E. rewrite E.
    repeat rewrite <- app_assoc. reflexivity. }
  split; [|split; [|split]].
  - intros content H. unfold wrapper_version_of. rewrite H. reflexivity.
  - intros content m Hs. split; [|eauto].
    unfold wrapper_version_of. rewrite Hs. reflexivity.
  - vm_compute. reflexivity.
  - intros content Hno. unfold wrapper_version_of.
    destruct (search WRAPPER_RE content) as [m|] eqn:Hs; auto.
    exfalso. apply Hno.
    destruct (K _ _ Hs) as (v & mid & _ & _ & _ & _ & pre & post & E).
    exists pre. eexists. rewrite E. repeat rewrite <- app_assoc.
    reflexivity.
Qed.

Lemma wrapper_version_extraction_witness :
  wrapper_version_of (cps "distributionUrl=https\://x/gradle-8.10-bin.zip")
  = group (RMatch 0 (cps "distributionUrl=https\://x/gradle-8.10-")
             [(1, cps "8.10")]) 1.
Proof.
  destruct wrapper_version_extraction as (_ & H & _).
  eapply H. vm_compute. reflexivity.
Defined.

(** C10. The version gates look at the first match only.  When the first
    match of the AGP pattern captures a major version of 8 or more, no
    finding has the AGP title; when the first match of the Kotlin pattern
    captures a version of (1, 9) or more, no finding has the Kotlin title.
    A later line with a lower version, which alone would be reported,
    changes nothing. *)
Theorem first_match_decides :
  (forall t m d major,
      search agp_re t = Some m -> group m 1 = Some d ->
      int (Some d) = Ok major -> (8 <= major)%Z ->
      exists hits, scan_text_for_rules t = Ok hits /\
                   with_title (r_title agp_rule) hits = [])
  /\ (forall t m d1 d2 major minor,
        search kotlin_re t = Some m ->
        group m 1 = Some d1 -> group m 2 = Some d2 ->
        int (Some d1) = Ok major -> int (Some d2) = Ok minor ->
        (1 < major \/ major = 1 /\ 9 <= minor)%Z ->
        exists hits, scan_text_for_rules t = Ok hits /\
                     with_title (r_title kotlin_rule) hits = [])
  /\ (scan_text_for_rules (agp_line "7.4.2") = Ok [finding_of agp_rule] /\
      scan_text_for_rules agp_8_then_7 = Ok [])
  /\ (scan_text_for_rules (kotlin_line "1.8.22")
      = Ok [finding_of kotlin_rule] /\
      scan_text_for_rules kotlin_19_then_18 = Ok []).
Proof.
  split; [|split; [|repeat split; vm_compute; reflexivity]].
  - intros t m d major Hs Hg Hi Hge.
    destruct (fires_agp _ Hs) as (d' & major' & Hg' & Hi' & Hf).
    assert (d' = d) by congruence. subst d'.
    assert (major' = major) by congruence. subst major'.
    eexists. split; [apply scan_text_eq|].
    rewrite with_title_rules by in_rules. rewrite Hf.
    apply Z.ltb_ge in Hge. rewrite Hge. reflexivity.
  - intros t m d1 d2 major minor Hs Hg1 Hg2 Hi1 Hi2 Hge.
    destruct (fires_kotlin _ Hs)
      as (e1 & e2 & major' & minor' & G1 & G2 & I1 & I2 & Hf).
    assert (e1 = d1) by congruence. assert (e2 = d2) by congruence. subst.
    assert (major' = major) by congruence.
    assert (minor' = minor) by congruence. subst.
    eexists. split; [apply scan_text_eq|].
    rewrite with_title_rules by in_rules. rewrite Hf.
    destruct (Z.ltb_spec major 1), (Z.eqb_spec major 1),
      (Z.ltb_spec minor 9); simpl; try reflexivity; lia.
Qed.

Lemma first_match_decides_witness :
  exists hits, scan_text_for_rules agp_8_then_7 = Ok hits /\
               with_title (r_title agp_rule) hits = [].
Proof.
  destruct first_match_decides as (H & _).
  eapply (H agp_8_then_7 _ (cps "8") 8%Z); vm_compute;
    first [reflexivity | discriminate].
Defined.

(* ------------------------------------------------------------------ *)
(** ** Properties of the glue *)

Section GlueFacts.

Variable w : world.

Lemma scan_files_step f files acc :
  scan_files w (f :: files) acc =
  match map finding_of (filter (fires (read_text w f)) RULES) with
  | [] => scan_files w files acc
  | h :: hs => scan_files w files (acc ++ [(f, h :: hs)])
  end.
Proof.
  cbn [scan_files]. rewrite scan_text_eq. cbn [bind].
  destruct (map finding_of _); reflexivity.
Qed.

Lemma scan_files_app a : forall b acc,
  scan_files w (a ++ b) acc = (r <- scan_files w a acc ;; scan_files w b r).
Proof.
  induction a as [|f a IH]; intros b acc.
  - reflexivity.
  - rewrite <- app_comm_cons, !scan_files_step.
    destruct (map finding_of _); apply IH.
Qed.

(** The file loop never raises, and keeps only files with findings. *)
Lemma scan_files_ok files : forall acc,
  exists res, scan_files w files acc = Ok res /\
    (Forall nonempty_hits acc -> Forall nonempty_hits res).
Proof.
  induction files as [|f files IH]; intros acc.
  - exists acc. split; auto.
  - rewrite scan_files_step.
    destruct (map finding_of _) as [|h hs] eqn:E; [apply IH|].
    destruct (IH (acc ++ [(f, h :: hs)])) as (res & Hr & Hf).
    exists res. split; auto. intros Ha. apply Hf.
    apply Forall_app. split; auto. constructor; [discriminate|constructor].
Qed.

Lemma scan_plugins_sound pc plugins : forall acc res,
  scan_plugins w pc plugins acc = Ok res ->
  Forall sound_entry acc -> Forall sound_entry res.
Proof.
  induction plugins as [|p plugins IH]; intros acc res; cbn [scan_plugins].
  - intros H Ha. inversion H; subst. exact Ha.
  - destruct (p_path p); cbn [bind]; try discriminate.
    match goal with
    | |- context [exists_ w (?b // "android")] =>
        destruct (exists_ w (b // "android")); cbn [negb]; [|apply IH];
        destruct (scan_files_ok (find_files w (b // "android") GRADLE_FILES)
                    []) as (hp & -> & Hhp)
    end.
    cbn [bind]. destruct hp as [|e hp]; [apply IH|].
    intros H Ha. eapply IH; [exact H|]. apply Forall_app. split; auto.
    constructor; [|constructor]. split; [discriminate|].
    apply Hhp. constructor.
Qed.

Lemma count_hits_zero l :
  Forall nonempty_hits l -> count_hits l = 0 -> l = [].
Proof.
  destruct l as [|[f h] l]; auto. intros Hf. inversion Hf; subst.
  unfold count_hits. cbn [map list_sum snd].
  destruct h; [exfalso; auto | discriminate].
Qed.

Lemma total_plugins_zero l :
  Forall sound_entry l ->
  list_sum (map (fun e => count_hits (snd e)) l) = 0 -> l = [].
Proof.
  destruct l as [|e l]; auto. intros Hf. inversion Hf as [|? ? [Hn Hs] _].
  subst. cbn [map list_sum]. intros H.
  apply Nat.eq_add_0 in H. destruct H as [H0 _].
  apply count_hits_zero in H0; auto. contradiction.
Qed.

(** What [main] has gathered holds only files with findings. *)
Lemma gather_sound root android_dir g :
  gather w root android_dir = Ok g ->
  Forall nonempty_hits (project_findings g) /\
  Forall sound_entry (plugin_findings g).
Proof.
  unfold gather.
  destruct (scan_files_ok (find_files w android_dir GRADLE_FILES) [])
    as (pf & -> & Hpf). cbn [bind].
  destruct (parse_plugins w root) as [plugins|e]; [|discriminate].
  cbn [bind].
  destruct (scan_plugins w (get_pub_cache_dir w) plugins []) as [plf|e]
    eqn:E; [|discriminate].
  cbn [bind]. intros H. inversion H; subst. cbn [project_findings
    plugin_findings]. split; [apply Hpf; constructor|].
  eapply scan_plugins_sound; [exact E | constructor].
Qed.

End GlueFacts.

(** C7. With the project file and the android directory in place, the
    process ends with status 0 or 1, and with 0 exactly when [main] reaches
    its summary with a total of zero findings; a run that reaches the
    summary exits with 1 for any other total, and its total is zero exactly
    when neither the project nor a plugin has a file with findings. *)
Theorem exit_status_reflects_findings (w : world) :
  exists_ w (cwd w // "pubspec.yaml") = true ->
  exists_ w (cwd w // "android") = true ->
  (exit_status (main w) = 0%Z \/ exit_status (main w) = 1%Z) /\
  (exit_status (main w) = 0%Z <->
   exists g, gather w (cwd w) (cwd w // "android") = Ok g /\ total g = 0) /\
  (forall g, gather w (cwd w) (cwd w // "android") = Ok g ->
     main w = Ok (if Nat.eqb (total g) 0 then 0%Z else 1%Z) /\
     (total g = 0 <-> project_findings g = [] /\ plugin_findings g = [])).
Proof.
  intros Hp Ha. unfold main. rewrite Hp, Ha. cbn [negb].
  destruct (gather w (cwd w) (cwd w // "android")) as [g|e] eqn:G;
    cbn [bind exit_status].
  - destruct (total g) as [|n] eqn:T; cbn [Nat.ltb Nat.leb Nat.eqb].
    + split; [auto|]. split.
      * split; [intros _; exists g; auto | auto].
      * intros g' E. inversion E; subst g'. rewrite T. split; auto.
        destruct (gather_sound _ _ _ G) as [Hpf Hplf].
        unfold total, total_project, total_plugins in T.
        apply Nat.eq_add_0 in T. destruct T as [T1 T2].
        split; auto. intros _. split.
        -- apply count_hits_zero; auto.
        -- apply total_plugins_zero; auto.
    + split; [auto|]. split.
      * split; [discriminate|]. intros (g' & E & T').
        inversion E; subst g'. congruence.
      * intros g' E. inversion E; subst g'. rewrite T. split; auto.
        split; [discriminate|]. intros [E1 E2].
        unfold total, total_project, total_plugins in T.
        rewrite E1, E2 in T. discriminate.
  - split; [auto|]. split.
    + split; [discriminate | intros (g & E & _); discriminate].
    + intros g E; discriminate.
Qed.

Lemma exit_status_reflects_findings_witness :
  (exit_status (main jcenter_world) = 0%Z <->
   exists g, gather jcenter_world (cwd jcenter_world)
               (cwd jcenter_world // "android") = Ok g /\ total g = 0)
  /\ exit_status (main jcenter_world) = 1%Z
  /\ exit_status (main clean_world) = 0%Z.
Proof.
  split; [|split; vm_compute; reflexivity].
  apply exit_status_reflects_findings; vm_compute; reflexivity.
Defined.

(** C8. Where reading a file raises, [read_text] returns the empty string;
    scanning it gives no finding, and the loop over the files goes on as if
    the file were not in the list. *)
Theorem unreadable_file_is_empty (w : world) (p : path) :
  read w p = None ->
  read_text w p = [] /\
  scan_text_for_rules (read_text w p) = Ok [] /\
  (forall before after acc,
      scan_files w (before ++ p :: after) acc =
      scan_files w (before ++ after) acc).
Proof.
  intros H.
  assert (E : read_text w p = []) by (unfold read_text; rewrite H; auto).
  assert (S0 : scan_text_for_rules [] = Ok [])
    by (vm_compute; reflexivity).
  rewrite E. repeat split; auto.
  intros before after acc. rewrite !scan_files_app.
  destruct (scan_files w before acc) as [r|e]; cbn [bind]; auto.
  cbn [scan_files]. rewrite E, S0. reflexivity.
Qed.

Lemma unreadable_file_is_empty_witness :
  read_text unreadable_world (proj // "android" // "app" // "build.gradle")
  = [] /\
  main unreadable_world = Ok 0%Z.
Proof.
  split; [|vm_compute; reflexivity].
  apply unreadable_file_is_empty. vm_compute. reflexivity.
Defined.

(** C9, as the claim has it, fails: a manifest that holds the JSON
    document of an empty array is read and decoded, and [parse_plugins]
    raises. *)
Lemma parse_plugins_raises_on_array :
  exists_ array_manifest_world manifest_path = true /\
  json_loads array_manifest_world (read_text array_manifest_world
                                     manifest_path) = Some (JArr []) /\
  parse_plugins array_manifest_world proj = Raise AttributeError.
Proof. repeat split; vm_compute; reflexivity. Qed.

(** C9, amended.  [parse_plugins] returns the empty list when the manifest
    file is absent, when the decoder raises on what was read of it (as it
    does on the empty text of a failed read), and when the decoded value is
    an object without a [plugins] member, or whose [plugins] member is an
    object without an [android] member or with one that is false as a
    condition. *)
Theorem parse_plugins_degrades (w : world) (root : path) :
  let f := root // ".flutter-plugins-dependencies" in
  (exists_ w f = false -> parse_plugins w root = Ok [])
  /\ (json_loads w (read_text w f) = None -> parse_plugins w root = Ok [])
  /\ (read w f = None -> json_loads w [] = None ->
      parse_plugins w root = Ok [])
  /\ (forall items,
        json_loads w (read_text w f) = Some (JObj items) ->
        lookup (cps "plugins") items = None ->
        parse_plugins w root = Ok [])
  /\ (forall items members,
        json_loads w (read_text w f) = Some (JObj items) ->
        lookup (cps "plugins") items = Some (JObj members) ->
        match lookup (cps "android") members with
        | None => True
        | Some v => truth v = false
        end ->
        parse_plugins w root = Ok []).
Proof.
  intros f. unfold parse_plugins. fold f.
  split; [|split; [|split; [|split]]].
  - intros ->. reflexivity.
  - intros ->. destruct (exists_ w f); reflexivity.
  - intros Hr Hj. unfold read_text. rewrite Hr, Hj.
    destruct (exists_ w f); reflexivity.
  - intros items -> Hl. destruct (exists_ w f); cbn [negb]; auto.
    cbn [get]. rewrite Hl. reflexivity.
  - intros items members -> Hl Ha. destruct (exists_ w f); cbn [negb]; auto.
    cbn [get bind]. rewrite Hl. cbn [get bind].
    destruct (lookup (cps "android") members) as [v|]; [|reflexivity].
    cbn [bind]. unfold or_else. rewrite Ha. reflexivity.
Qed.

Lemma parse_plugins_degrades_witness :
  parse_plugins empty_manifest_world proj = Ok [].
Proof.
  destruct (parse_plugins_degrades empty_manifest_world proj)
    as (_ & _ & _ & H & _).
  apply (H []); vm_compute; reflexivity.
Defined.

(* ------------------------------------------------------------------ *)
(** ** Matching does not depend on the groups captured *)

Section Positions.

Implicit Types (st : mstate) (cs : cset) (r : regex).

Lemma star_from_pos cs g g' : forall rs sn,
  map pos (star_from cs sn rs g) = map pos (star_from cs sn rs g').
Proof.
  induction rs as [|c rs IH]; intros sn; simpl; auto.
  destruct (cs_match cs c); simpl; auto.
  rewrite !map_app, IH. reflexivity.
Qed.

Lemma flat_map_pos r :
  (forall st1 st2, pos st1 = pos st2 ->
     map pos (run r st1) = map pos (run r st2)) ->
  forall l1 l2, map pos l1 = map pos l2 ->
    map pos (flat_map (run r) l1) = map pos (flat_map (run r) l2).
Proof.
  intros Hr. induction l1 as [|a l1 IH]; intros [|b l2] H;
    simpl in *; try discriminate; auto.
  assert (E1 : pos a = pos b) by congruence.
  assert (E2 : map pos l1 = map pos l2) by congruence.
  rewrite !map_app. f_equal; auto.
Qed.

Lemma run_pos r : forall st1 st2,
  pos st1 = pos st2 -> map pos (run r st1) = map pos (run r st2).
Proof.
  induction r as [s|cs|cs|cs| |r1 IH1 r2 IH2|r1 IH1 r2 IH2|n r IH];
    intros [sn rs g] [sn2 rs2 g2] H; unfold pos in H; simpl in H;
    inversion H; subst sn2 rs2; clear H.
  - simpl. destruct (lit_from s sn rs) as [[a b]|]; reflexivity.
  - simpl. destruct rs as [|c rs]; auto. destruct (cs_match cs c); auto.
  - simpl. apply star_from_pos.
  - simpl. destruct rs as [|c rs]; auto. destruct (cs_match cs c); auto.
    apply star_from_pos.
  - simpl. unfold at_bol. simpl. destruct sn as [|c sn]; auto.
    destruct (c =? newline)%N; auto.
  - cbn [run]. apply flat_map_pos; auto.
  - cbn [run]. rewrite !map_app. f_equal; auto.
  - cbn [run]. rewrite !map_map.
    transitivity (map pos (run r (MState sn rs g)));
      [apply map_ext; intros a; reflexivity|].
    rewrite (IH (MState sn rs g) (MState sn rs g2)) by reflexivity.
    apply map_ext; intros a; reflexivity.
Qed.

Lemma in_run_reach r st st' :
  In st' (run r st) -> reach r (seen st) (rest st) (seen st') (rest st').
Proof.
  intros H. apply (in_map pos) in H.
  rewrite (@run_pos r st (MState (seen st) (rest st) [])) in H
    by reflexivity.
  apply in_map_iff in H. destruct H as ([a b g'] & E & H).
  unfold pos in E. simpl in E. inversion E; subst. exists g'. exact H.
Qed.

Lemma reach_in_run r sn rs sn' rs' g :
  reach r sn rs sn' rs' ->
  exists g', In (MState sn' rs' g') (run r (MState sn rs g)).
Proof.
  intros [g0 H]. apply (in_map pos) in H.
  rewrite (@run_pos r (MState sn rs []) (MState sn rs g)) in H
    by reflexivity.
  apply in_map_iff in H. destruct H as ([a b g'] & E & H).
  unfold pos in E. simpl in E. inversion E; subst. exists g'. exact H.
Qed.

Lemma reach_lit s sn rs sn' rs' :
  reach (Lit s) sn rs sn' rs' <-> rs = s ++ rs' /\ sn' = rev s ++ sn.
Proof.
  unfold reach. split.
  - intros [g H]. apply in_run_lit in H. destruct H as (tl & E & H).
    simpl in E, H. inversion H; subst. auto.
  - intros [-> ->]. exists []. apply in_run_lit. exists rs'. auto.
Qed.

Lemma reach_one cs sn rs sn' rs' :
  reach (One cs) sn rs sn' rs' <->
  exists c, cs_match cs c = true /\ rs = c :: rs' /\ sn' = c :: sn.
Proof.
  unfold reach. split.
  - intros [g H]. apply in_run_one in H.
    destruct H as (c & tl & Hc & E & H). simpl in E, H.
    inversion H; subst. eauto.
  - intros (c & Hc & -> & ->). exists []. apply in_run_one.
    exists c, rs'. auto.
Qed.

Lemma reach_star cs sn rs sn' rs' :
  reach (Star cs) sn rs sn' rs' <->
  exists taken, forallb (cs_match cs) taken = true /\
                rs = taken ++ rs' /\ sn' = rev taken ++ sn.
Proof.
  unfold reach. split.
  - intros [g H]. apply in_run_star in H.
    destruct H as (tk & tl & Hc & E & H). simpl in E, H.
    inversion H; subst. eauto.
  - intros (tk & Hc & -> & ->). exists []. apply in_run_star.
    exists tk, rs'. auto.
Qed.

Lemma reach_plus cs sn rs sn' rs' :
  reach (Plus cs) sn rs sn' rs' <->
  exists taken, taken <> [] /\ forallb (cs_match cs) taken = true /\
                rs = taken ++ rs' /\ sn' = rev taken ++ sn.
Proof.
  unfold reach. split.
  - intros [g H]. apply in_run_plus in H.
    destruct H as (c & tk & tl & Hc & E & H). simpl in E, H.
    inversion H; subst. exists (c :: tk). repeat split; auto. discriminate.
  - intros ([|c tk] & Hne & Hc & -> & ->); [congruence|]. exists [].
    apply in_run_plus. exists c, tk, rs'. auto.
Qed.

Lemma reach_bol sn rs sn' rs' :
  reach Bol sn rs sn' rs' <->
  at_bol (MState sn rs []) = true /\ sn' = sn /\ rs' = rs.
Proof.
  unfold reach. split.
  - intros [g H]. apply in_run_bol in H. destruct H as [Hb H].
    inversion H; subst. auto.
  - intros (Hb & -> & ->). exists []. apply in_run_bol. auto.
Qed.

Lemma reach_seq r1 r2 sn rs sn' rs' :
  reach (Seq r1 r2) sn rs sn' rs' <->
  exists sn1 rs1, reach r1 sn rs sn1 rs1 /\ reach r2 sn1 rs1 sn' rs'.
Proof.
  split.
  - intros [g H]. apply in_run_seq in H. destruct H as (st1 & H1 & H2).
    exists (seen st1), (rest st1). split.
    + apply (@in_run_reach r1 (MState sn rs []) st1 H1).
    + apply (@in_run_reach r2 st1 (MState sn' rs' g) H2).
  - intros (sn1 & rs1 & [g1 H1] & H2).
    destruct (@reach_in_run r2 sn1 rs1 sn' rs' g1 H2) as [g' H2'].
    exists g'. apply in_run_seq. eauto.
Qed.

Lemma reach_alt r1 r2 sn rs sn' rs' :
  reach (Alt r1 r2) sn rs sn' rs' <->
  reach r1 sn rs sn' rs' \/ reach r2 sn rs sn' rs'.
Proof.
  unfold reach. split.
  - intros [g H]. apply in_run_alt in H. destruct H; eauto.
  - intros [[g H]|[g H]]; exists g; apply in_run_alt; auto.
Qed.

Lemma reach_group n r sn rs sn' rs' :
  reach (Group n r) sn rs sn' rs' <-> reach r sn rs sn' rs'.
Proof.
  unfold reach. split.
  - intros [g H]. apply in_run_group in H. destruct H as (st1 & H1 & E).
    destruct st1 as [a b g1]. simpl in E. inversion E; subst. eauto.
  - intros [g H]. eexists. apply in_run_group. eexists. split; [exact H|].
    reflexivity.
Qed.

(** A pattern is found exactly when it matches at some position. *)
Lemma search_found r t :
  search r t <> None <->
  exists pre post, t = pre ++ post /\ matches_at r (rev pre) post.
Proof.
  split.
  - destruct (search r t) as [m|] eqn:E; [|congruence]. intros _.
    apply search_some in E.
    destruct E as (pre & post & st' & tl & -> & Hr & _).
    exists pre, post. split; auto. exists (seen st'), (rest st').
    apply (@in_run_reach r (MState (rev pre) post []) st').
    rewrite Hr. left; reflexivity.
  - intros (pre & post & -> & sn' & rs' & g & H).
    eapply search_finds; exact H.
Qed.

Lemma at_bol_line_start pre rs g :
  at_bol (MState (rev pre) rs g) = true <-> line_start pre.
Proof.
  unfold at_bol, line_start. cbn [seen].
  destruct (rev pre) as [|c l] eqn:E.
  - apply (f_equal (@rev char)) in E. rewrite rev_involutive in E.
    simpl in E. subst. split; auto.
  - apply (f_equal (@rev char)) in E. rewrite rev_involutive in E.
    simpl in E. subst pre. rewrite N.eqb_eq. split.
    + intros ->. right. eauto.
    + intros [H|[p H]].
      * destruct (rev l); discriminate.
      * apply app_inj_tail in H. tauto.
Qed.

End Positions.

(* ------------------------------------------------------------------ *)
(** ** What each pattern finds *)

Section Building.

Implicit Types (cs : cset) (r : regex) (sn rs tl ws : text).

Lemma matches_seq r1 r2 sn rs :
  matches_at (Seq r1 r2) sn rs <->
  exists sn1 rs1, reach r1 sn rs sn1 rs1 /\ matches_at r2 sn1 rs1.
Proof.
  unfold matches_at. split.
  - intros (sn' & rs' & H). apply reach_seq in H.
    destruct H as (sn1 & rs1 & H1 & H2). eauto 6.
  - intros (sn1 & rs1 & H1 & sn' & rs' & H2). exists sn', rs'.
    apply reach_seq. eauto.
Qed.

Lemma m_lit s r sn tl :
  matches_at r (rev s ++ sn) tl -> matches_at (Seq (Lit s) r) sn (s ++ tl).
Proof.
  intros H. apply matches_seq. exists (rev s ++ sn), tl. split; auto.
  apply reach_lit. auto.
Qed.

Lemma m_one cs c r sn tl :
  cs_match cs c = true -> matches_at r (c :: sn) tl ->
  matches_at (Seq (One cs) r) sn (c :: tl).
Proof.
  intros Hc H. apply matches_seq. exists (c :: sn), tl. split; auto.
  apply reach_one. eauto.
Qed.

Lemma m_star cs ws r sn tl :
  forallb (cs_match cs) ws = true -> matches_at r (rev ws ++ sn) tl ->
  matches_at (Seq (Star cs) r) sn (ws ++ tl).
Proof.
  intros Hc H. apply matches_seq. exists (rev ws ++ sn), tl. split; auto.
  apply reach_star. eauto.
Qed.

Lemma m_plus cs ws r sn tl :
  ws <> [] -> forallb (cs_match cs) ws = true ->
  matches_at r (rev ws ++ sn) tl ->
  matches_at (Seq (Plus cs) r) sn (ws ++ tl).
Proof.
  intros Hne Hc H. apply matches_seq. exists (rev ws ++ sn), tl.
  split; auto. apply reach_plus. eauto.
Qed.

Lemma m_group_plus n cs ws r sn tl :
  ws <> [] -> forallb (cs_match cs) ws = true ->
  matches_at r (rev ws ++ sn) tl ->
  matches_at (Seq (Group n (Plus cs)) r) sn (ws ++ tl).
Proof.
  intros Hne Hc H. apply matches_seq. exists (rev ws ++ sn), tl.
  split; auto. apply reach_group, reach_plus. eauto.
Qed.

Lemma m_end_one cs c sn tl :
  cs_match cs c = true -> matches_at (One cs) sn (c :: tl).
Proof. intros H. exists (c :: sn), tl. apply reach_one. eauto. Qed.

Lemma m_end_group_plus n cs ws sn tl :
  ws <> [] -> forallb (cs_match cs) ws = true ->
  matches_at (Group n (Plus cs)) sn (ws ++ tl).
Proof.
  intros Hne Hc. exists (rev ws ++ sn), tl.
  apply reach_group, reach_plus. eauto.
Qed.

End Building.

(** Takes a match apart, down to what stands in the text. *)
Ltac open_reach :=
  repeat match goal with
  | H : matches_at (Seq _ _) _ _ |- _ =>
      apply matches_seq in H; destruct H as (? & ? & ? & H)
  | H : matches_at _ _ _ |- _ => destruct H as (? & ? & H)
  | R : reach (Seq _ _) _ _ _ _ |- _ =>
      apply reach_seq in R; destruct R as (? & ? & ? & R)
  | R : reach (Lit _) _ _ _ _ |- _ =>
      apply reach_lit in R; destruct R as [? ?]
  | R : reach (One _) _ _ _ _ |- _ =>
      apply reach_one in R; destruct R as (? & ? & ? & ?)
  | R : reach (Star _) _ _ _ _ |- _ =>
      apply reach_star in R; destruct R as (? & ? & ? & ?)
  | R : reach (Plus _) _ _ _ _ |- _ =>
      apply reach_plus in R; destruct R as (? & ? & ? & ? & ?)
  | R : reach Bol _ _ _ _ |- _ =>
      apply reach_bol in R; destruct R as (? & ? & ?)
  | R : reach (Group _ _) _ _ _ _ |- _ => apply reach_group in R
  | R : reach (Alt _ _) _ _ _ _ |- _ =>
      apply reach_alt in R; destruct R as [R|R]
  end.

Section Usages.

Lemma app_cons_tail {A} (p : list A) x l : p ++ x :: l = (p ++ [x]) ++ l.
Proof. rewrite <- app_assoc. reflexivity. Qed.

Lemma maven_found t : search maven_re t <> None <-> maven_in t.
Proof.
  rewrite search_found. unfold maven_in, maven_usage, maven_re.
  cbn [seq]. split.
  - intros (pre & post & -> & H). open_reach. subst.
    match goal with
    | Hq1 : cs_match quote ?q1 = true, Hq2 : cs_match quote ?q2 = true,
      Hw1 : forallb _ ?w1 = true, Hw2 : forallb _ ?w2 = true,
      Hne : ?w1 <> [] |- context [cps "apply" ++ ?w1 ++ cps "plugin:"
                                   ++ ?w2 ++ ?q1 :: cps "maven"
                                   ++ ?q2 :: ?tl] =>
        exists pre, tl, w1, w2, q1, q2
    end.
    repeat split; auto. repeat rewrite <- app_assoc. reflexivity.
  - intros (pre & post & ws1 & ws2 & q1 & q2 & -> & Hne & Hw1 & Hw2 & Hq1
            & Hq2).
    exists pre. eexists. split; [reflexivity|].
    repeat first [rewrite <- app_assoc | progress cbn [app]].
    apply m_lit, m_plus; auto. apply m_lit, m_star; auto.
    apply m_one; auto. apply m_lit, m_end_one; auto.
Qed.

Lemma jcenter_found t : search jcenter_re t <> None <-> jcenter_in t.
Proof.
  rewrite search_found. unfold jcenter_in, jcenter_re. cbn [seq]. split.
  - intros (pre & post & -> & H). open_reach. subst.
    match goal with
    | Hc : cs_match (Chr _) ?c = true, Hw : forallb _ ?w = true
      |- context [?w ++ ?c :: ?tl] =>
        cbn [cs_match] in Hc; apply N.eqb_eq in Hc; subst c;
        exists pre, w, tl
    end.
    split; auto.
  - intros (pre & ws & post & -> & Hw). exists pre. eexists.
    split; [reflexivity|]. apply m_lit, m_star; auto.
    apply m_end_one. apply N.eqb_refl.
Qed.

Lemma kae_found t :
  search kae_re t <> None <-> occurs (cps "kotlin-android-extensions") t.
Proof.
  rewrite search_found. unfold occurs, kae_re. split.
  - intros (pre & post & -> & H). open_reach. subst. eauto.
  - intros (pre & post & ->). exists pre. eexists. split; [reflexivity|].
    eexists _, post. apply reach_lit. split; reflexivity.
Qed.

Lemma line_start_after_space pre : line_start pre -> after_space pre.
Proof. intros [->|[p ->]]; [left; auto | right; exists p, newline; auto]. Qed.

Lemma keyword_found kw t :
  search (keyword_re kw) t <> None <-> keyword_in kw t.
Proof.
  rewrite search_found. unfold keyword_in, keyword_re. cbn [seq]. split.
  - intros (pre & post & -> & H). open_reach; subst;
      repeat match goal with
      | Hb : at_bol (MState (rev _) _ _) = true |- _ =>
          apply at_bol_line_start, line_start_after_space in Hb
      | Hc : cs_match (Chr _) _ = true |- _ =>
          cbn [cs_match] in Hc; apply N.eqb_eq in Hc; symmetry in Hc
      | Hs : cs_match Space _ = true |- _ => cbn [cs_match] in Hs
      end;
      first
      [ eexists pre, _, _; split; [reflexivity|]; solve [auto]
      | match goal with
        | |- context [pre ++ ?x :: kw ++ ?c :: ?tl] =>
            exists (pre ++ [x]), c, tl
        end;
        split; [apply app_cons_tail|]; split; [right; eauto | auto] ].
  - intros (pre & c & post & -> & Hpre & Hc).
    assert (Hend : forall sn, matches_at
              (Group 2 (Alt (One Space) (One (Chr (ch "("))))) sn
              (c :: post)).
    { intros sn. exists (c :: sn), post. apply reach_group, reach_alt.
      destruct Hc as [Hc| ->]; [left|right]; apply reach_one; eauto.
      exists (ch "("). repeat split. }
    destruct Hpre as [->|(p & x & -> & Hx)].
    + exists [], (kw ++ c :: post). split; [reflexivity|].
      apply matches_seq. exists [], (kw ++ c :: post). split.
      * apply reach_group, reach_alt. left. apply reach_bol. auto.
      * apply m_lit, Hend.
    + exists p, (x :: kw ++ c :: post). split.
      * rewrite <- app_assoc. reflexivity.
      * apply matches_seq. exists (x :: rev p), (kw ++ c :: post). split.
        -- apply reach_group, reach_alt. right. apply reach_one. eauto.
        -- apply m_lit, Hend.
Qed.

Lemma buildscript_found t :
  search buildscript_re t <> None <-> buildscript_in t.
Proof.
  rewrite search_found. unfold buildscript_in, buildscript_re.
  cbn [seq]. split.
  - intros (pre & post & -> & H). open_reach. subst.
    match goal with
    | Hb : at_bol _ = true, Hc : cs_match (Chr _) ?c = true
      |- context [?w1 ++ cps "buildscript" ++ ?w2 ++ ?c :: ?tl] =>
        apply at_bol_line_start in Hb;
        cbn [cs_match] in Hc; apply N.eqb_eq in Hc; subst c;
        exists pre, w1, w2, tl
    end.
    repeat split; auto.
  - intros (pre & ws1 & ws2 & post & -> & Hpre & Hw1 & Hw2).
    exists pre. eexists. split; [reflexivity|].
    apply matches_seq. eexists _, _. split.
    + apply reach_bol. split; [|split; reflexivity].
      apply at_bol_line_start. exact Hpre.
    + apply m_star; auto. apply m_lit, m_star; auto.
      apply m_end_one. apply N.eqb_refl.
Qed.

Lemma wrapper_found content :
  search WRAPPER_RE content <> None <-> exists v, wrapper_in content v.
Proof.
  rewrite search_found. unfold wrapper_in, WRAPPER_RE. cbn [seq]. split.
  - intros (pre & post & -> & H). open_reach. subst.
    match goal with
    | Hc : cs_match (Chr _) ?c = true, Hv : forallb _ ?v = true,
      Hm : forallb (cs_match Dot) ?mid = true
      |- context [?mid ++ cps "gradle-" ++ ?v ++ ?c :: ?tl] =>
        cbn [cs_match] in Hc; apply N.eqb_eq in Hc; subst c;
        exists v, pre, mid, tl
    end.
    repeat split; auto.
  - intros (v & pre & mid & post & -> & Hmid & Hne & Hv).
    exists pre. eexists. split; [reflexivity|].
    apply m_lit, m_star; auto. apply m_lit, m_group_plus; auto.
    apply m_end_one. apply N.eqb_refl.
Qed.

End Usages.

(* ------------------------------------------------------------------ *)
(** ** More about the scanner *)

Section ScanHelpers.

Lemma scan_has t r :
  In r RULES ->
  exists hits, scan_text_for_rules t = Ok hits /\
               (In (finding_of r) hits <-> fires t r = true).
Proof.
  intros Hr. eexists. split; [apply scan_text_eq|]. apply in_kept. exact Hr.
Qed.

Lemma fires_found t r :
  In r RULES -> r <> agp_rule -> r <> kotlin_rule ->
  (fires t r = true <-> search (r_pattern r) t <> None).
Proof.
  intros Hr Ha Hk. rewrite (fires_plain t Hr Ha Hk).
  destruct (search (r_pattern r) t); split; congruence.
Qed.

(** A rule without a version gate is reported exactly when its pattern is
    found. *)
Lemma plain_reported t r (P : Prop) :
  In r RULES -> r <> agp_rule -> r <> kotlin_rule ->
  (search (r_pattern r) t <> None <-> P) ->
  exists hits, scan_text_for_rules t = Ok hits /\
               (In (finding_of r) hits <-> P).
Proof.
  intros Hr Ha Hk HP. destruct (scan_has t Hr) as (hits & Hs & Hin).
  exists hits. split; auto. rewrite Hin, (fires_found t Hr Ha Hk). exact HP.
Qed.


Lemma needs_consumes p r : needs p r = true -> forall st st',
  In st' (run r st) ->
  exists mid, rest st = mid ++ rest st' /\ existsb p mid = true.
Proof.
  induction r as [s|cs|cs|cs| |r1 IH1 r2 IH2|r1 IH1 r2 IH2|n r IH];
    simpl needs; intros Hi st st' H; try discriminate.
  - apply in_run_lit in H. destruct H as (tl & H & ->). exists s; auto.
  - destruct cs; try discriminate.
    apply in_run_one in H. destruct H as (k & tl & Hk & H & ->).
    cbn [cs_match] in Hk. apply N.eqb_eq in Hk. subst k. exists [c].
    simpl. rewrite Hi. auto.
  - destruct cs; try discriminate.
    apply in_run_plus in H. destruct H as (k & tk & tl & Hk & H & ->).
    exists (k :: tk). split; auto. cbn [forallb cs_match] in Hk.
    apply andb_true_iff in Hk. destruct Hk as [Hk _].
    apply N.eqb_eq in Hk. subst k. simpl. rewrite Hi. auto.
  - apply in_run_seq in H. destruct H as (st1 & H1 & H2).
    apply orb_true_iff in Hi. destruct Hi as [Hi|Hi].
    + destruct (IH1 Hi _ _ H1) as (m1 & E1 & K1).
      destruct (run_consumes _ _ _ H2) as (m2 & E2 & _).
      exists (m1 ++ m2). rewrite E1, E2, existsb_app, K1, app_assoc. auto.
    + destruct (run_consumes _ _ _ H1) as (m1 & E1 & _).
      destruct (IH2 Hi _ _ H2) as (m2 & E2 & K2).
      exists (m1 ++ m2). rewrite E1, E2, existsb_app, K2, app_assoc.
      rewrite orb_true_r. auto.
  - apply andb_true_iff in Hi. destruct Hi as [Hi1 Hi2].
    apply in_run_alt in H. destruct H as [H|H]; eauto.
  - apply in_run_group in H. destruct H as (st1 & H1 & ->). simpl. eauto.
Qed.

(** A pattern that needs such a character is not found without one. *)
Lemma search_needs p r t :
  needs p r = true -> forallb (fun c => negb (p c)) t = true ->
  search r t = None.
Proof.
  intros Hn Ht. destruct (search r t) as [m|] eqn:E; auto.
  apply search_some in E.
  destruct E as (pre & post & st' & tl & -> & Hr & _).
  assert (Hin : In st' (run r (MState (rev pre) post [])))
    by (rewrite Hr; left; reflexivity).
  apply (needs_consumes _ _ Hn) in Hin. destruct Hin as (mid & E & K).
  simpl in E. apply existsb_exists in K. destruct K as (c & Hc & Hp).
  rewrite forallb_forall in Ht. specialize (Ht c). rewrite Hp in Ht.
  assert (Hf : negb true = true); [|discriminate Hf]. apply Ht.
  rewrite E. apply in_or_app. right. apply in_or_app. left. exact Hc.
Qed.

(** A match of the AGP pattern, spelled out. *)
Lemma agp_match st st' :
  In st' (run agp_re st) ->
  exists ws q d tl,
    rest st = cps "classpath" ++ ws
                ++ q :: cps "com.android.tools.build:gradle:" ++ d
                ++ ch "." :: tl /\
    ws <> [] /\ blank ws /\ cs_match quote q = true /\
    d <> [] /\ forallb is_digit d = true /\
    get_cap 1 (caps st') = Some d.
Proof.
  unfold agp_re. cbn [seq]. intros H. do 5 peel H.
  apply in_run_one in H. destruct H as (k & tl & Hk & E & ->).
  cbn [cs_match] in Hk. apply N.eqb_eq in Hk. subst k.
  cbn [rest] in E. subst.
  eexists (_ :: _), _, (_ :: _), tl.
  split; [eassumption|]. repeat split; auto; discriminate.
Qed.

Lemma maven_reported_iff_aux t :
  exists hits, scan_text_for_rules t = Ok hits /\
               (In (finding_of maven_rule) hits <-> maven_in t).
Proof.
  apply plain_reported; [in_rules | discriminate | discriminate|].
  apply maven_found.
Qed.

Lemma jcenter_reported_iff_aux t :
  exists hits, scan_text_for_rules t = Ok hits /\
               (In (finding_of jcenter_rule) hits <-> jcenter_in t).
Proof.
  apply plain_reported; [in_rules | discriminate | discriminate|].
  apply jcenter_found.
Qed.

Lemma kae_reported_iff_aux t :
  exists hits, scan_text_for_rules t = Ok hits /\
    (In (finding_of kae_rule) hits <->
     occurs (cps "kotlin-android-extensions") t).
Proof.
  apply plain_reported; [in_rules | discriminate | discriminate|].
  apply kae_found.
Qed.

End ScanHelpers.



(** X2. The maven rule is reported exactly for a text that holds [apply],
    white space, [plugin:], any white space and [maven] between two quote
    characters, of either kind each. *)
Theorem maven_reported_iff (t : text) :
  exists hits, scan_text_for_rules t = Ok hits /\
               (In (finding_of maven_rule) hits <-> maven_in t).
Proof.
  apply plain_reported; [in_rules | discriminate | discriminate|].
  apply maven_found.
Qed.

(** X3. The compile rule, and the provided rule in the same way, is
    reported exactly for a text in which the keyword stands at the start or
    after white space, and before white space or an opening parenthesis. *)
Theorem keyword_reported_iff (t : text) :
  exists hits, scan_text_for_rules t = Ok hits /\
    (In (finding_of compile_rule) hits <-> keyword_in (cps "compile") t) /\
    (In (finding_of provided_rule) hits <-> keyword_in (cps "provided") t).
Proof.
  destruct (@plain_reported t compile_rule (keyword_in (cps "compile") t))
    as (hits & Hs & Hc);
    [in_rules | discriminate | discriminate
    | apply (keyword_found (cps "compile")) |].
  destruct (@plain_reported t provided_rule (keyword_in (cps "provided") t))
    as (hits' & Hs' & Hp);
    [in_rules | discriminate | discriminate
    | apply (keyword_found (cps "provided")) |].
  assert (hits' = hits) by congruence. subst hits'.
  exists hits. auto.
Qed.

(** X4. The jcenter rule is reported exactly for a text that holds
    [jcenter], any white space (line breaks too) and an opening
    parenthesis. *)
Theorem jcenter_reported_iff (t : text) :
  exists hits, scan_text_for_rules t = Ok hits /\
               (In (finding_of jcenter_rule) hits <-> jcenter_in t).
Proof.
  apply plain_reported; [in_rules | discriminate | discriminate|].
  apply jcenter_found.
Qed.

(** X5. The Kotlin Android Extensions rule is reported exactly for a text
    in which the plugin identifier occurs. *)
Theorem kae_reported_iff (t : text) :
  exists hits, scan_text_for_rules t = Ok hits /\
    (In (finding_of kae_rule) hits <->
     occurs (cps "kotlin-android-extensions") t).
Proof.
  apply plain_reported; [in_rules | discriminate | discriminate|].
  apply kae_found.
Qed.

(** X6. The buildscript rule is reported exactly for a text in which, from
    the start of a line, any white space, [buildscript], any white space and
    an opening brace follow one another. *)
Theorem buildscript_reported_iff (t : text) :
  exists hits, scan_text_for_rules t = Ok hits /\
               (In (finding_of buildscript_rule) hits <-> buildscript_in t).
Proof.
  apply plain_reported; [in_rules | discriminate | discriminate|].
  apply buildscript_found.
Qed.

(** X7. An AGP finding is never without cause: the text holds an AGP
    classpath line whose major version reads as a number below 8. *)
Theorem agp_finding_has_cause (t : text) (hits : list finding) :
  scan_text_for_rules t = Ok hits ->
  In (finding_of agp_rule) hits ->
  exists d major,
    agp_in t d /\ int (Some d) = Ok major /\ (major < 8)%Z.
Proof.
  intros Hs Hin. rewrite scan_text_eq in Hs. inversion Hs; subst hits.
  apply in_kept in Hin; [|in_rules].
  destruct (search agp_re t) as [m|] eqn:E.
  - destruct (fires_agp _ E) as (d & major & Hg & Hi & Hf).
    exists d, major. rewrite Hin in Hf. symmetry in Hf.
    apply Z.ltb_lt in Hf. repeat split; auto.
    apply search_some in E.
    destruct E as (pre & post & st' & tl & -> & Hr & Hc).
    assert (Hm : In st' (run agp_re (MState (rev pre) post [])))
      by (rewrite Hr; left; reflexivity).
    apply agp_match in Hm.
    destruct Hm as (ws & q & d' & tl' & Ep & Hne & Hw & Hq & Hd1 & Hd2 & G).
    unfold group in Hg. rewrite Hc, G in Hg. inversion Hg; subst d'.
    cbn [rest] in Ep. exists pre, ws, q, tl'. subst post.
    repeat split; auto.
  - unfold fires in Hin. rewrite scan_rule_agp, E in Hin. discriminate.
Qed.

Lemma agp_finding_has_cause_witness :
  exists d major,
    agp_in (agp_line "7.4.2") d /\ int (Some d) = Ok major /\
    (major < 8)%Z.
Proof.
  apply (@agp_finding_has_cause (agp_line "7.4.2") [finding_of agp_rule]).
  - vm_compute. reflexivity.
  - left. reflexivity.
Defined.

Section FirstWay.

Lemma hd_flat_map {A B} (f : A -> list B) (l : list A) (y : B) :
  hd_error (flat_map f l) = Some y ->
  exists x, In x l /\ hd_error (f x) = Some y.
Proof.
  induction l as [|a l IH]; simpl; [discriminate|].
  destruct (f a) as [|b bs] eqn:E; simpl.
  - intros H. destruct (IH H) as (x & Hx & Hy). eauto.
  - intros H. exists a. rewrite E. auto.
Qed.

Lemma hd_run_seq r1 r2 st st' :
  hd_error (run (Seq r1 r2) st) = Some st' ->
  exists st1, In st1 (run r1 st) /\ hd_error (run r2 st1) = Some st'.
Proof. cbn [run]. apply hd_flat_map. Qed.

Lemma star_from_hd cs g st' : forall rs sn,
  hd_error (star_from cs sn rs g) = Some st' ->
  exists taken, forallb (cs_match cs) taken = true /\
                rs = taken ++ rest st' /\ stops cs (rest st') /\
                st' = MState (rev taken ++ sn) (rest st') g.
Proof.
  induction rs as [|c rs IH]; intros sn; simpl.
  - intros H. inversion H; subst. exists []. simpl. auto.
  - destruct (cs_match cs c) eqn:E.
    + destruct (star_from cs (c :: sn) rs g) as [|x l] eqn:S.
      * destruct rs; simpl in S; [discriminate|].
        destruct (cs_match cs c0); [|discriminate].
        destruct (star_from cs (c0 :: c :: sn) rs g); discriminate.
      * simpl. intros H. inversion H; subst x.
        destruct (IH (c :: sn)) as (tk & Ht & Er & Hs & Est).
        { rewrite S. reflexivity. }
        exists (c :: tk). simpl. rewrite E, Ht, <- app_assoc.
        repeat split; auto. rewrite Er at 1. reflexivity.
    + intros H. inversion H; subst. exists []. simpl. auto.
Qed.

Lemma hd_run_group_plus n cs st st' :
  hd_error (run (Group n (Plus cs)) st) = Some st' ->
  exists taken, taken <> [] /\ forallb (cs_match cs) taken = true /\
    rest st = taken ++ rest st' /\ stops cs (rest st') /\
    caps st' = set_cap n taken (caps st).
Proof.
  cbn [run]. destruct (rest st) as [|c rs] eqn:R; [discriminate|].
  destruct (cs_match cs c) eqn:E; [|discriminate].
  destruct (star_from cs (c :: seen st) rs (caps st)) as [|x l] eqn:S;
    [discriminate|].
  simpl. intros H. inversion H; subst st'. clear H. cbn [rest caps].
  destruct (@star_from_hd cs (caps st) x rs (c :: seen st))
    as (tk & Ht & Er & Hs & Ex).
  { rewrite S. reflexivity. }
  exists (c :: tk). simpl forallb. rewrite E, Ht.
  assert (Hx : caps x = caps st) by (rewrite Ex; reflexivity).
  repeat split; auto; [discriminate | rewrite Er at 1; reflexivity|].
  rewrite Hx. f_equal. rewrite Er. apply (firstn_consumed (c :: tk)).
Qed.

End FirstWay.

(** As [peel], for the first way through a sequence. *)
Ltac peel_hd H :=
  let s := fresh "s" in
  let H1 := fresh "H" in
  apply hd_run_seq in H; destruct H as (s & H1 & H);
  first
    [ apply in_run_lit in H1; destruct H1 as (? & ? & H1)
    | apply in_run_one in H1; destruct H1 as (? & ? & ? & ? & H1)
    | apply in_run_star in H1; destruct H1 as (? & ? & ? & ? & H1)
    | apply in_run_plus in H1; destruct H1 as (? & ? & ? & ? & ? & H1)
    | apply in_run_group_plus in H1; destruct H1 as (? & ? & ? & ? & ? & H1)
    | apply in_run_bol in H1; destruct H1 as (? & H1) ];
  subst s; simpl rest in *; simpl seen in *; simpl caps in *.

(** The first way through the Kotlin pattern, spelled out: the minor
    version takes all the digits that stand there. *)
Lemma kotlin_head st st' :
  hd_error (run kotlin_re st) = Some st' ->
  exists ws q d1 d2 tl,
    rest st = cps "classpath" ++ ws
                ++ q :: cps "org.jetbrains.kotlin:kotlin-gradle-plugin:"
                ++ d1 ++ ch "." :: d2 ++ tl /\
    ws <> [] /\ blank ws /\ cs_match quote q = true /\
    d1 <> [] /\ forallb is_digit d1 = true /\
    d2 <> [] /\ forallb is_digit d2 = true /\ stops Digit tl /\
    get_cap 1 (caps st') = Some d1 /\ get_cap 2 (caps st') = Some d2.
Proof.
  unfold kotlin_re. cbn [seq]. intros H. do 6 peel_hd H.
  apply hd_run_group_plus in H.
  destruct H as (d2 & Hne & Hd2 & E & Hs & Hc). cbn [rest caps] in E, Hc.
  match goal with
  | Hk : cs_match (Chr _) ?k = true |- _ =>
      cbn [cs_match] in Hk; apply N.eqb_eq in Hk; subst k
  end.
  subst. eexists (_ :: _), _, (_ :: _), d2, (rest st').
  split; [eassumption|]. rewrite Hc.
  repeat split; auto; discriminate.
Qed.

(** X8. A Kotlin finding is never without cause: the text holds a Kotlin
    plugin classpath line whose version, the minor taken with all its
    digits, reads as a pair of numbers that comes before (1, 9). *)
Theorem kotlin_finding_has_cause (t : text) (hits : list finding) :
  scan_text_for_rules t = Ok hits ->
  In (finding_of kotlin_rule) hits ->
  exists d1 d2 major minor,
    kotlin_in t d1 d2 /\
    int (Some d1) = Ok major /\ int (Some d2) = Ok minor /\
    (major < 1 \/ major = 1 /\ minor < 9)%Z.
Proof.
  intros Hs Hin. rewrite scan_text_eq in Hs. inversion Hs; subst hits.
  apply in_kept in Hin; [|in_rules].
  destruct (search kotlin_re t) as [m|] eqn:E.
  - destruct (fires_kotlin _ E)
      as (d1 & d2 & major & minor & G1 & G2 & I1 & I2 & Hf).
    exists d1, d2, major, minor. rewrite Hin in Hf. symmetry in Hf.
    rewrite orb_true_iff, andb_true_iff, !Z.ltb_lt, Z.eqb_eq in Hf.
    repeat split; auto.
    apply search_some in E.
    destruct E as (pre & post & st' & tl & -> & Hr & Hc).
    assert (Hm : hd_error (run kotlin_re (MState (rev pre) post []))
                 = Some st') by (rewrite Hr; reflexivity).
    apply kotlin_head in Hm.
    destruct Hm as (ws & q & e1 & e2 & tl' & Ep & Hne & Hw & Hq & Hn1 & Hd1
                    & Hn2 & Hd2 & Hst & C1 & C2).
    unfold group in G1, G2. rewrite Hc in G1, G2.
    assert (e1 = d1) by congruence. assert (e2 = d2) by congruence. subst.
    cbn [rest] in Ep. exists pre, ws, q, tl'. subst post.
    repeat split; auto.
  - unfold fires in Hin. rewrite scan_rule_kotlin, E in Hin. discriminate.
Qed.

Lemma kotlin_finding_has_cause_witness :
  exists d1 d2 major minor,
    kotlin_in (kotlin_line "1.8.22") d1 d2 /\
    int (Some d1) = Ok major /\ int (Some d2) = Ok minor /\
    (major < 1 \/ major = 1 /\ minor < 9)%Z.
Proof.
  apply (@kotlin_finding_has_cause (kotlin_line "1.8.22")
           [finding_of kotlin_rule]).
  - vm_compute. reflexivity.
  - left. reflexivity.
Defined.

(** X9. Matching is case-sensitive, and every pattern has lower-case
    letters: a text without a letter from [a] to [z] has no finding and no
    wrapper version. *)
Theorem no_lower_case_no_findings (t : text) :
  forallb (fun c => negb (is_lower c)) t = true ->
  scan_text_for_rules t = Ok [] /\ wrapper_version_of t = None.
Proof.
  intros Ht. split.
  - rewrite scan_text_eq, filter_none; auto.
    intros r Hr. unfold fires, scan_rule.
    assert (Hall : forallb (fun r => needs is_lower (r_pattern r)) RULES
                   = true) by (vm_compute; reflexivity).
    rewrite forallb_forall in Hall. specialize (Hall r Hr).
    destruct r as [[[ti p] a] s]. cbn [r_pattern] in Hall.
    rewrite (search_needs is_lower p t Hall Ht). reflexivity.
  - unfold wrapper_version_of.
    rewrite (search_needs is_lower WRAPPER_RE t); auto.
Qed.

Lemma no_lower_case_no_findings_witness :
  scan_text_for_rules shouted = Ok [] /\ wrapper_version_of shouted = None.
Proof. apply no_lower_case_no_findings. vm_compute. reflexivity. Defined.

Section Embedding.

Lemma maven_in_embedded a t b : maven_in t -> maven_in (a ++ t ++ b).
Proof.
  intros (pre & post & ws1 & ws2 & q1 & q2 & -> & H).
  exists (a ++ pre), (post ++ b), ws1, ws2, q1, q2. split; auto.
  repeat rewrite <- app_assoc. reflexivity.
Qed.

Lemma jcenter_in_embedded a t b : jcenter_in t -> jcenter_in (a ++ t ++ b).
Proof.
  intros (pre & ws & post & -> & H).
  exists (a ++ pre), ws, (post ++ b). split; auto.
  repeat (rewrite <- app_assoc; cbn [app]). reflexivity.
Qed.

Lemma occurs_embedded s a t b : occurs s t -> occurs s (a ++ t ++ b).
Proof.
  intros (pre & post & ->). exists (a ++ pre), (post ++ b).
  repeat rewrite <- app_assoc. reflexivity.
Qed.

End Embedding.

(** X10. The maven, jcenter and Kotlin Android Extensions findings of a
    text stay when the text is set inside a larger one. *)
Theorem context_free_findings_stay (a t b : text)
    (hits hits' : list finding) (r : rule) :
  In r [maven_rule; jcenter_rule; kae_rule] ->
  scan_text_for_rules t = Ok hits ->
  scan_text_for_rules (a ++ t ++ b) = Ok hits' ->
  In (finding_of r) hits -> In (finding_of r) hits'.
Proof.
  intros Hr Hs Hs' Hin.
  destruct Hr as [<-|[<-|[<-|[]]]].
  - destruct (maven_reported_iff_aux t) as (h & Eh & Hh).
    destruct (maven_reported_iff_aux (a ++ t ++ b)) as (h' & Eh' & Hh').
    assert (h = hits) by congruence. assert (h' = hits') by congruence.
    subst. apply Hh'. apply maven_in_embedded. apply Hh. exact Hin.
  - destruct (jcenter_reported_iff_aux t) as (h & Eh & Hh).
    destruct (jcenter_reported_iff_aux (a ++ t ++ b)) as (h' & Eh' & Hh').
    assert (h = hits) by congruence. assert (h' = hits') by congruence.
    subst. apply Hh'. apply jcenter_in_embedded. apply Hh. exact Hin.
  - destruct (kae_reported_iff_aux t) as (h & Eh & Hh).
    destruct (kae_reported_iff_aux (a ++ t ++ b)) as (h' & Eh' & Hh').
    assert (h = hits) by congruence. assert (h' = hits') by congruence.
    subst. apply Hh'. apply occurs_embedded. apply Hh. exact Hin.
Qed.

Lemma context_free_findings_stay_witness :
  In (finding_of jcenter_rule) [finding_of jcenter_rule].
Proof.
  apply (@context_free_findings_stay (cps "repositories { ")
           (cps "jcenter()") (cps " }") [finding_of jcenter_rule]
           [finding_of jcenter_rule] jcenter_rule).
  - right; left; reflexivity.
  - vm_compute. reflexivity.
  - vm_compute. reflexivity.
  - left. reflexivity.
Defined.

(** X11. A wrapper version is extracted exactly from a content that holds,
    on one line, [distributionUrl=], then [gradle-], a run of digits and
    dots, and a hyphen. *)
Theorem wrapper_version_found_iff (content : text) :
  wrapper_version_of content <> None <-> exists v, wrapper_in content v.
Proof.
  rewrite <- wrapper_found. unfold wrapper_version_of.
  destruct (search WRAPPER_RE content) as [m|] eqn:E.
  - split; [congruence|]. intros _. apply search_some in E.
    destruct E as (pre & post & st' & tl & _ & Hr & Hc).
    assert (Hm : In st' (run WRAPPER_RE (MState (rev pre) post [])))
      by (rewrite Hr; left; reflexivity).
    apply wrapper_match in Hm.
    destruct Hm as (mid & c & v & tl' & _ & _ & _ & G).
    unfold group. rewrite Hc, G. discriminate.
  - split; congruence.
Qed.

Section Greedy.

Lemma flat_map_none {A B} (f : A -> list B) (l : list A) :
  (forall x, In x l -> f x = []) -> flat_map f l = [].
Proof.
  induction l as [|a l IH]; intros H; simpl; auto.
  rewrite (H a) by (left; reflexivity). apply IH. intros; apply H.
  right; assumption.
Qed.

Lemma run_seq_lit s r sn tl g :
  run (Seq (Lit s) r) (MState sn (s ++ tl) g) =
  run r (MState (rev s ++ sn) tl g).
Proof.
  cbn [run seen rest caps].
  assert (E : lit_from s sn (s ++ tl) = Some (rev s ++ sn, tl))
    by (apply lit_from_some; auto).
  rewrite E. simpl. apply app_nil_r.
Qed.

Lemma run_seq_star cs r st :
  run (Seq (Star cs) r) st =
  flat_map (run r) (star_from cs (seen st) (rest st) (caps st)).
Proof. reflexivity. Qed.

Lemma star_from_prefix cs g : forall taken sn tl,
  forallb (cs_match cs) taken = true ->
  exists shorter,
    star_from cs sn (taken ++ tl) g =
    star_from cs (rev taken ++ sn) tl g ++ shorter.
Proof.
  induction taken as [|x tk IH]; intros sn tl H.
  - exists []. rewrite app_nil_r. reflexivity.
  - simpl in H. apply andb_true_iff in H. destruct H as [Hx H].
    destruct (IH (x :: sn) tl H) as [sh E].
    exists (sh ++ [MState sn (x :: tk ++ tl) g]).
    cbn [app star_from]. rewrite Hx, E. cbn [rev].
    rewrite <- !app_assoc. reflexivity.
Qed.

Lemma star_from_front cs g : forall rs sn,
  exists front,
    star_from cs sn rs g = front ++ [MState sn rs g] /\
    forall s, In s front -> exists tk, tk <> [] /\ rs = tk ++ rest s.
Proof.
  induction rs as [|x rs IH]; intros sn.
  - exists []. split; [reflexivity | intros s []].
  - cbn [star_from]. destruct (cs_match cs x).
    + destruct (IH (x :: sn)) as (front & E & Hf).
      exists (star_from cs (x :: sn) rs g). split; auto.
      intros s Hs. rewrite E in Hs. apply in_app_or in Hs.
      destruct Hs as [Hs|[<-|[]]].
      * destruct (Hf s Hs) as (tk & _ & ->). exists (x :: tk).
        split; [discriminate | reflexivity].
      * exists [x]. split; [discriminate | reflexivity].
    + exists []. split; [reflexivity | intros s []].
Qed.

(** [gradle-] does not start again inside itself. *)
Lemma gradle_dash_later tk r y :
  tk <> [] -> GRADLE_DASH ++ y = tk ++ GRADLE_DASH ++ r ->
  occurs GRADLE_DASH y.
Proof.
  intros Hne E. unfold GRADLE_DASH in *.
  change (cps "gradle-") with [103; 114; 97; 100; 108; 101; 45]%N in *.
  destruct tk as [|t1 [|t2 [|t3 [|t4 [|t5 [|t6 [|t7 tk]]]]]]];
    try congruence; simpl in E; try (inversion E; fail).
  inversion E; subst. exists tk, r. reflexivity.
Qed.

(** The first way through the wrapper pattern at the last [gradle-]. *)
Lemma wrapper_head sn mid v tail :
  forallb (cs_match Dot) mid = true ->
  v <> [] -> forallb (cs_match version_chars) v = true ->
  ~ occurs GRADLE_DASH (v ++ ch "-" :: tail) ->
  exists st' tl,
    run WRAPPER_RE
      (MState sn (URL_KEY ++ mid ++ GRADLE_DASH ++ v ++ ch "-" :: tail) [])
    = st' :: tl /\ get_cap 1 (caps st') = Some v.
Proof.
  intros Hmid Hne Hv Hlast. unfold WRAPPER_RE, URL_KEY. cbn [seq].
  rewrite run_seq_lit, run_seq_star. cbn [seen rest caps].
  destruct (@star_from_prefix Dot [] mid
              (rev (cps "distributionUrl=") ++ sn)
              (GRADLE_DASH ++ v ++ ch "-" :: tail) Hmid) as [sh ->].
  destruct (@star_from_front Dot []
              (GRADLE_DASH ++ v ++ ch "-" :: tail)
              (rev mid ++ rev (cps "distributionUrl=") ++ sn))
    as (front & -> & Hfront).
  rewrite !flat_map_app.
  rewrite (@flat_map_none _ _ _ front).
  2: { intros s Hs. destruct (Hfront s Hs) as (tk & Htk & E).
       match goal with
       | |- run ?r s = [] => destruct (run r s) as [|y ys] eqn:R; auto;
           assert (Hy : In y (run r s)) by (rewrite R; left; reflexivity)
       end.
       exfalso. apply Hlast.
       apply in_run_seq in Hy. destruct Hy as (s1 & Hy & _).
       apply in_run_lit in Hy. destruct Hy as (r & Er & _).
       rewrite Er in E. eapply gradle_dash_later; eassumption. }
  cbn [app flat_map]. unfold GRADLE_DASH at 1. rewrite run_seq_lit.
  destruct v as [|c v]; [congruence|].
  cbn [forallb] in Hv. apply andb_true_iff in Hv. destruct Hv as [Hc Hv].
  destruct (@star_from_prefix version_chars [] v
              (c :: rev (cps "gradle-") ++ rev mid
                 ++ rev (cps "distributionUrl=") ++ sn)
              (ch "-" :: tail) Hv) as [sh2 E2].
  eexists _, _. split.
  - cbn [run seen rest caps app]. rewrite Hc, E2.
    cbn [star_from]. replace (cs_match version_chars (ch "-")) with false
      by (vm_compute; reflexivity).
    cbn [app map flat_map run rest seen caps cs_match].
    rewrite N.eqb_refl. cbn [app]. reflexivity.
  - cbn [caps]. unfold get_cap, set_cap. cbn [find Nat.eqb]. f_equal.
    apply (firstn_consumed (c :: v) (ch "-" :: tail)).
Qed.

Lemma search_at r : forall pre sn post st' tl,
  (forall p1 x p2, pre = p1 ++ x :: p2 ->
     run r (MState (rev p1 ++ sn) (x :: p2 ++ post) []) = []) ->
  run r (MState (rev pre ++ sn) post []) = st' :: tl ->
  exists m, search_from r sn (pre ++ post) = Some m /\
            m_caps m = caps st'.
Proof.
  induction pre as [|y pre IH]; intros sn post st' tl Hmin Hr.
  - simpl in *. destruct post; simpl; rewrite Hr; eauto.
  - cbn [app search_from].
    pose proof (Hmin [] y pre eq_refl) as H0. cbn [rev app] in H0.
    rewrite H0. cbn [rev app] in Hr.
    rewrite <- app_assoc in Hr.
    apply (IH (y :: sn) post st' tl); auto.
    intros p1 x p2 ->. specialize (Hmin (y :: p1) x p2 eq_refl).
    cbn [rev] in Hmin. rewrite <- app_assoc in Hmin. exact Hmin.
Qed.

End Greedy.

(** X27. The version read is the one after the last [gradle-]: in a content
    whose first [distributionUrl=] is followed on its line by a [gradle-],
    a run of digits and dots and a hyphen, with no [gradle-] after that, the
    version extracted is that run, whatever stands between the key and this
    [gradle-]. *)
Theorem wrapper_reads_last_gradle (pre mid v tail : text) :
  (forall p s, wrapper_content pre mid v tail = p ++ URL_KEY ++ s ->
               length pre <= length p) ->
  forallb (cs_match Dot) mid = true ->
  v <> [] -> forallb (cs_match version_chars) v = true ->
  ~ occurs GRADLE_DASH (v ++ ch "-" :: tail) ->
  wrapper_version_of (wrapper_content pre mid v tail) = Some v.
Proof.
  intros Hfirst Hmid Hne Hv Hlast.
  destruct (@wrapper_head (rev pre) mid v tail Hmid Hne Hv Hlast)
    as (st' & tl & Hr & Hc).
  destruct (@search_at WRAPPER_RE pre []
              (URL_KEY ++ mid ++ GRADLE_DASH ++ v ++ ch "-" :: tail) st' tl)
    as (m & Hs & Hm).
  - intros p1 x p2 Ep.
    match goal with
    | |- run ?r ?st = [] =>
        destruct (run r st) as [|s0 ss] eqn:R; [reflexivity|exfalso];
        assert (Hin : In s0 (run r st)) by (rewrite R; left; reflexivity)
    end.
    apply wrapper_match in Hin.
    destruct Hin as (mid' & c' & v' & tl' & E & _). cbn [rest] in E.
    assert (Eq : wrapper_content pre mid v tail =
                 p1 ++ URL_KEY ++ mid' ++ cps "gradle-" ++ (c' :: v')
                    ++ ch "-" :: tl').
    { unfold wrapper_content. rewrite Ep, <- app_assoc. f_equal.
      exact E. }
    apply Hfirst in Eq. rewrite Ep, length_app in Eq. simpl in Eq. lia.
  - rewrite app_nil_r. exact Hr.
  - unfold wrapper_version_of, search, wrapper_content. rewrite Hs.
    unfold group. rewrite Hm. exact Hc.
Qed.

Lemma wrapper_reads_last_gradle_witness :
  wrapper_version_of wrapper_line = Some (cps "8.10").
Proof.
  apply (@wrapper_reads_last_gradle []
           (cps "https\://mirror/gradle-7.6-cache/")
           (cps "8.10") (cps "bin.zip")).
  - intros p s _. apply Nat.le_0_l.
  - vm_compute. reflexivity.
  - discriminate.
  - vm_compute. reflexivity.
  - intros (a & b & E). revert E. vm_compute.
    do 13 (destruct a as [|? a]; [simpl; discriminate|]).
    simpl; discriminate.
Defined.

(* ------------------------------------------------------------------ *)
(** ** More about the glue *)

Section PathFacts.

Lemma text_eqb_eq a : forall b, text_eqb a b = true <-> a = b.
Proof.
  induction a as [|x a IH]; intros [|y b]; simpl;
    try (split; [discriminate | discriminate]); [tauto|].
  rewrite andb_true_iff, N.eqb_eq, IH. split.
  - intros [-> ->]; reflexivity.
  - intros H; inversion H; auto.
Qed.

Lemma path_eqb_eq p : forall q, path_eqb p q = true <-> p = q.
Proof.
  induction p as [|x p IH]; intros [|y q]; simpl;
    try (split; [discriminate | discriminate]); [tauto|].
  rewrite andb_true_iff, text_eqb_eq, IH. split.
  - intros [-> ->]; reflexivity.
  - intros H; inversion H; auto.
Qed.

Lemma seen_before_in s p : seen_before s p = true <-> In p s.
Proof.
  unfold seen_before. rewrite existsb_exists. split.
  - intros (q & Hq & E). apply path_eqb_eq in E. subst. exact Hq.
  - intros H. exists p. split; auto. apply path_eqb_eq. reflexivity.
Qed.

Lemma uniq_from_step s p l :
  uniq_from s (p :: l) =
  if seen_before s p then uniq_from s l else p :: uniq_from (p :: s) l.
Proof. reflexivity. Qed.

Lemma in_uniq_from l : forall s p,
  In p (uniq_from s l) <-> In p l /\ ~ In p s.
Proof.
  induction l as [|q l IH]; intros s p.
  - simpl. tauto.
  - rewrite uniq_from_step. destruct (seen_before s q) eqn:E.
    + apply seen_before_in in E. rewrite IH. simpl. split.
      * tauto.
      * intros [[->|H] Hn]; tauto.
    + assert (Hq : ~ In q s).
      { intros H. apply seen_before_in in H. congruence. }
      simpl. rewrite IH. simpl. split.
      * intros [->|[H Hn]]; tauto.
      * intros [[->|H] Hn]; auto.
        destruct (path_eqb q p) eqn:Eq.
        -- apply path_eqb_eq in Eq. auto.
        -- right. split; auto. intros [->|H']; auto.
           rewrite (proj2 (path_eqb_eq p p) eq_refl) in Eq. discriminate.
Qed.

Lemma nodup_uniq_from l : forall s, NoDup (uniq_from s l).
Proof.
  induction l as [|q l IH]; intros s; [constructor|].
  rewrite uniq_from_step. destruct (seen_before s q); auto.
  constructor; auto. rewrite in_uniq_from. simpl. tauto.
Qed.

(** [uniq_from] looks at what [seen] holds, not at how it holds it. *)
Lemma uniq_from_same l : forall s s',
  (forall p, In p s <-> In p s') -> uniq_from s l = uniq_from s' l.
Proof.
  induction l as [|q l IH]; intros s s' H; auto.
  rewrite !uniq_from_step.
  assert (E : seen_before s q = seen_before s' q).
  { destruct (seen_before s q) eqn:E1, (seen_before s' q) eqn:E2; auto.
    - apply seen_before_in, H, seen_before_in in E1. congruence.
    - apply seen_before_in, H, seen_before_in in E2. congruence. }
  rewrite E. destruct (seen_before s' q); auto.
  f_equal. apply IH. intros p. simpl. rewrite H. tauto.
Qed.

Lemma uniq_from_filter l : forall s1 s2,
  uniq_from (s1 ++ s2) l =
  filter (fun p => negb (seen_before s1 p)) (uniq_from s2 l).
Proof.
  induction l as [|q l IH]; intros s1 s2; auto.
  rewrite !uniq_from_step.
  assert (E : seen_before (s1 ++ s2) q
              = seen_before s1 q || seen_before s2 q)
    by apply existsb_app.
  rewrite E. destruct (seen_before s2 q) eqn:E2.
  - rewrite orb_true_r. apply IH.
  - rewrite orb_false_r. cbn [filter].
    destruct (seen_before s1 q) eqn:E1; cbn [negb].
    + rewrite <- IH. apply uniq_from_same. intros p.
      rewrite !in_app_iff. simpl. apply seen_before_in in E1.
      split; [tauto|]. intros [H|[->|H]]; auto.
    + f_equal. rewrite <- IH. apply uniq_from_same. intros p. simpl.
      rewrite !in_app_iff. simpl. tauto.
Qed.

Lemma uniq_from_app l1 : forall l2 s,
  uniq_from s (l1 ++ l2) =
  uniq_from s l1 ++ uniq_from (rev l1 ++ s) l2.
Proof.
  induction l1 as [|q l1 IH]; intros l2 s; auto.
  rewrite <- app_comm_cons, !uniq_from_step.
  destruct (seen_before s q) eqn:E.
  - rewrite IH. f_equal. apply uniq_from_same. intros p.
    rewrite !in_app_iff. simpl. rewrite in_app_iff. simpl.
    apply seen_before_in in E. split; [tauto|].
    intros [[H|[->|[]]]|H]; auto.
  - rewrite IH. cbn [app]. do 2 f_equal. apply uniq_from_same. intros p.
    rewrite !in_app_iff. simpl. rewrite in_app_iff. simpl. tauto.
Qed.

Lemma find_files_nodup (w : world) root ps : NoDup (find_files w root ps).
Proof. apply nodup_uniq_from. Qed.

End PathFacts.

(** X12. [find_files] returns every path that one of the globs finds, and
    no other, each once; more globs only add, after the paths already
    found, those of their paths that are new. *)
Theorem find_files_unique (w : world) (root : path) (ps1 ps2 : list text) :
  NoDup (find_files w root ps1) /\
  (forall p, In p (find_files w root ps1) <->
             exists pat, In pat ps1 /\ In p (rglob w root pat)) /\
  find_files w root (ps1 ++ ps2) =
  find_files w root ps1 ++
  filter (fun p => negb (seen_before (find_files w root ps1) p))
    (find_files w root ps2).
Proof.
  unfold find_files. split; [apply nodup_uniq_from|]. split.
  - intros p. rewrite in_uniq_from, in_flat_map. simpl. tauto.
  - rewrite flat_map_app, uniq_from_app, app_nil_r. f_equal.
    rewrite <- (app_nil_r (rev _)), uniq_from_filter.
    apply filter_ext. intros p. f_equal.
    destruct (seen_before (rev (flat_map (rglob w root) ps1)) p) eqn:E1,
      (seen_before (uniq_from [] (flat_map (rglob w root) ps1)) p) eqn:E2;
      auto.
    + apply seen_before_in, in_rev in E1.
      assert (In p (uniq_from [] (flat_map (rglob w root) ps1)))
        by (apply in_uniq_from; simpl; tauto).
      apply seen_before_in in H. congruence.
    + apply seen_before_in, in_uniq_from in E2. destruct E2 as [E2 _].
      apply in_rev, seen_before_in in E2. congruence.
Qed.

Lemma find_files_unique_witness :
  exists pat, In pat GRADLE_FILES /\
    In (proj // "android" // "settings.gradle")
       (rglob settings_world (proj // "android") pat).
Proof.
  destruct (@find_files_unique settings_world (proj // "android")
              GRADLE_FILES []) as (_ & H & _).
  apply H. vm_compute. left. reflexivity.
Defined.

Section LoopFacts.

Variable w : world.

Lemma hits_in_eq f :
  scan_text_for_rules (read_text w f) = Ok (hits_in w f).
Proof. unfold hits_in. rewrite scan_text_eq. reflexivity. Qed.


Lemma scan_files_eq files : forall acc,
  scan_files w files acc = Ok (acc ++ flat_map (entry_of w) files).
Proof.
  induction files as [|f files IH]; intros acc.
  - simpl. rewrite app_nil_r. reflexivity.
  - cbn [scan_files flat_map]. rewrite hits_in_eq. cbn [bind].
    unfold entry_of at 1. destruct (hits_in w f) as [|h hs].
    + apply IH.
    + rewrite IH, <- app_assoc. reflexivity.
Qed.

Lemma count_hits_app a b : count_hits (a ++ b) = count_hits a + count_hits b.
Proof. unfold count_hits. rewrite map_app, list_sum_app. reflexivity. Qed.

Lemma count_entries files :
  count_hits (flat_map (entry_of w) files) =
  list_sum (map (fun f => length (hits_in w f)) files).
Proof.
  induction files as [|f files IH]; auto.
  cbn [flat_map map list_sum fold_right]. rewrite count_hits_app, IH.
  unfold entry_of. destruct (hits_in w f) as [|h hs]; [reflexivity|].
  unfold count_hits, list_sum. cbn [map fold_right snd]. lia.
Qed.

Lemma in_entries files e :
  In e (flat_map (entry_of w) files) <->
  In (fst e) files /\ snd e = hits_in w (fst e) /\ snd e <> [].
Proof.
  rewrite in_flat_map. unfold entry_of. split.
  - intros (f & Hf & He). destruct (hits_in w f) as [|h hs] eqn:E.
    + destruct He.
    + destruct He as [<-|[]]. simpl. rewrite E. repeat split; auto.
      discriminate.
  - intros (Hf & He & Hn). exists (fst e). split; auto.
    destruct e as [f h]. simpl in *. subst h.
    destruct (hits_in w f); [congruence | left; reflexivity].
Qed.

Lemma nodup_entries files :
  NoDup files -> NoDup (map fst (flat_map (entry_of w) files)).
Proof.
  induction files as [|f files IH]; intros Hn; [constructor|].
  inversion Hn; subst. cbn [flat_map]. rewrite map_app.
  unfold entry_of at 1. destruct (hits_in w f); simpl; auto.
  constructor; auto. rewrite in_map_iff. intros (e & <- & He).
  apply in_entries in He. tauto.
Qed.

(** The project part of what [main] gathers. *)
Lemma gather_project root android_dir g :
  gather w root android_dir = Ok g ->
  project_findings g =
  flat_map (entry_of w) (find_files w android_dir GRADLE_FILES).
Proof.
  unfold gather. rewrite scan_files_eq. cbn [bind app].
  destruct (parse_plugins w root); [|discriminate]. cbn [bind].
  destruct (scan_plugins w (get_pub_cache_dir w) a []); [|discriminate].
  cbn [bind]. intros H. inversion H. reflexivity.
Qed.

End LoopFacts.



(** X14. With the project file and the android directory in place, a build
    file of the project with a finding makes the exit status 1, whatever
    the plugins are. *)
Theorem flagged_project_file_fails (w : world) (f : path) :
  exists_ w (cwd w // "pubspec.yaml") = true ->
  exists_ w (cwd w // "android") = true ->
  In f (find_files w (cwd w // "android") GRADLE_FILES) ->
  hits_in w f <> [] ->
  exit_status (main w) = 1%Z.
Proof.
  intros Hp Ha Hf Hh. unfold main. rewrite Hp, Ha. cbn [negb].
  destruct (gather w (cwd w) (cwd w // "android")) as [g|e] eqn:G;
    cbn [bind exit_status]; auto.
  destruct (total g) as [|n] eqn:T; auto. exfalso.
  unfold total in T. apply Nat.eq_add_0 in T. destruct T as [T _].
  unfold total_project in T. rewrite (gather_project _ _ _ G) in T.
  rewrite count_entries in T.
  apply in_split in Hf. destruct Hf as (l1 & l2 & E). rewrite E in T.
  rewrite map_app, list_sum_app in T. cbn [map list_sum fold_right] in T.
  destruct (hits_in w f); [congruence | simpl in T; lia].
Qed.

Lemma flagged_project_file_fails_witness :
  exit_status (main jcenter_world) = 1%Z.
Proof.
  apply (@flagged_project_file_fails jcenter_world
           (proj // "android" // "build.gradle"));
    vm_compute; first [reflexivity | tauto | discriminate].
Defined.

(** X15. The exit status is 0 or 1 in every world, and 1 whenever the
    project file or the android directory is missing: nothing is read or
    decoded before these two checks. *)
Theorem exit_status_is_binary (w : world) :
  (exit_status (main w) = 0%Z \/ exit_status (main w) = 1%Z) /\
  (exists_ w (cwd w // "pubspec.yaml") = false \/
   exists_ w (cwd w // "android") = false ->
   main w = Ok 1%Z /\
   forall w', cwd w' = cwd w -> exists_ w' = exists_ w ->
              main w' = Ok 1%Z).
Proof.
  split.
  - unfold main.
    destruct (exists_ w (cwd w // "pubspec.yaml")); cbn [negb]; auto.
    destruct (exists_ w (cwd w // "android")); cbn [negb]; auto.
    destruct (gather w (cwd w) (cwd w // "android")) as [g|e];
      cbn [bind exit_status]; auto.
    destruct (Nat.ltb 0 (total g)); auto.
  - intros H.
    assert (K : forall w', cwd w' = cwd w -> exists_ w' = exists_ w ->
                           main w' = Ok 1%Z).
    { intros w' Hc He. unfold main. rewrite Hc, He.
      destruct (exists_ w (cwd w // "pubspec.yaml")); cbn [negb]; auto.
      destruct H as [H|H]; [discriminate|]. rewrite H. reflexivity. }
    split; auto.
Qed.

Lemma exit_status_is_binary_witness :
  main (small_world [] [] []) = Ok 1%Z.
Proof.
  destruct (exit_status_is_binary (small_world [] [] [])) as (_ & H).
  destruct H as [H _]; [left; vm_compute; reflexivity | exact H].
Defined.

(** X16. A run that reaches the summary has scanned each project build
    file once, also one that several globs find: the project findings name
    no file twice, name only build files with findings, and their total is
    the number of findings of all the build files. *)
Theorem project_files_counted_once (w : world) (g : gathered) :
  gather w (cwd w) (cwd w // "android") = Ok g ->
  let files := find_files w (cwd w // "android") GRADLE_FILES in
  NoDup (map fst (project_findings g)) /\
  (forall f h, In (f, h) (project_findings g) <->
               In f files /\ h = hits_in w f /\ h <> []) /\
  total_project g = list_sum (map (fun f => length (hits_in w f)) files).
Proof.
  intros G files. rewrite (gather_project _ _ _ G). fold files.
  split; [|split].
  - apply nodup_entries. apply find_files_nodup.
  - intros f h. apply (in_entries w files (f, h)).
  - unfold total_project. rewrite (gather_project _ _ _ G).
    apply count_entries.
Qed.

Lemma project_files_counted_once_witness :
  exists g, gather settings_world (cwd settings_world)
              (cwd settings_world // "android") = Ok g /\
            total_project g = 1.
Proof.
  eexists. split; [vm_compute; reflexivity|].
  match goal with
  | |- total_project ?g = _ =>
      destruct (@project_files_counted_once settings_world g) as (_ & _ & H);
      [vm_compute; reflexivity|]; rewrite H
  end.
  vm_compute. reflexivity.
Defined.

Section PluginFacts.

Variable w : world.

Lemma collect_plugins_eq ps : Forall is_object ps -> forall out,
  collect_plugins ps out = Ok (out ++ flat_map plugin_of ps).
Proof.
  induction 1 as [|p ps Hp Hps IH]; intros out; cbn [collect_plugins].
  - rewrite app_nil_r. reflexivity.
  - destruct p as [| | | | | |items]; try destruct Hp.
    cbn [get flat_map plugin_of].
    destruct (lookup (cps "name") items) as [name|];
      destruct (lookup (cps "path") items) as [pth|]; cbn [bind];
      match goal with
      | |- context [truth ?a && truth ?b] => destruct (truth a && truth b)
      end; rewrite IH; cbn [app]; rewrite <- ?app_assoc; reflexivity.
Qed.

Lemma collect_plugins_ok ps : forall out,
  (exists r, collect_plugins ps out = Ok r) <-> Forall is_object ps.
Proof.
  induction ps as [|p ps IH]; intros out.
  - split; [constructor | intros _; simpl; eauto].
  - split.
    + intros [r H]. cbn [collect_plugins] in H.
      destruct p as [| | | | | |items]; try discriminate.
      constructor; [exact I|]. cbn [get bind] in H.
      destruct (lookup (cps "name") items) as [name|];
        destruct (lookup (cps "path") items) as [pth|]; cbn [bind] in H;
        match type of H with
        | context [truth ?a && truth ?b] =>
            destruct (truth a && truth b)
        end; eapply IH; eauto.
    + intros H. rewrite (collect_plugins_eq H). eauto.
Qed.

Lemma in_plugin_of v p :
  In p (plugin_of v) -> truth (p_name p) = true /\ truth (p_path p) = true.
Proof.
  destruct v as [| | | | | |items]; try (intros []). cbn [plugin_of].
  match goal with
  | |- context [truth ?a && truth ?b] => destruct (truth a && truth b) eqn:E
  end; [|intros []].
  intros [<-|[]]. cbn [p_name p_path]. apply andb_true_iff. exact E.
Qed.

Lemma iter_entries entries :
  iter (or_else (JArr entries) (JArr [])) = Ok entries.
Proof. destruct entries; reflexivity. Qed.

Lemma scan_plugins_step p b plugins pc acc :
  declared_base w p = Some b -> exists_ w b = true ->
  scan_plugins w pc (p :: plugins) acc =
  if exists_ w (b // "android") then
    match flat_map (entry_of w) (find_files w (b // "android") GRADLE_FILES)
    with
    | [] => scan_plugins w pc plugins acc
    | e :: es => scan_plugins w pc plugins (acc ++ [(p_name p, b, e :: es)])
    end
  else scan_plugins w pc plugins acc.
Proof.
  unfold declared_base. intros Hb He. cbn [scan_plugins].
  destruct (p_path p); try discriminate. inversion Hb; subst b.
  cbn [bind]. rewrite He. cbn [negb].
  destruct (exists_ w (expanduser w (to_path w s) // "android"));
    cbn [negb]; auto.
  rewrite scan_files_eq. cbn [bind app].
  destruct (flat_map (entry_of w) _); reflexivity.
Qed.

Lemma scan_plugins_grows pc plugins : forall acc res,
  scan_plugins w pc plugins acc = Ok res -> exists extra, res = acc ++ extra.
Proof.
  induction plugins as [|p plugins IH]; intros acc res; cbn [scan_plugins].
  - intros H. inversion H. exists []. rewrite app_nil_r. reflexivity.
  - destruct (p_path p); cbn [bind]; try discriminate.
    match goal with
    | |- context [exists_ w (?b // "android")] =>
        destruct (exists_ w (b // "android")); cbn [negb]; [|apply IH];
        rewrite scan_files_eq; cbn [bind app];
        destruct (flat_map (entry_of w) _); [apply IH|]
    end.
    intros H. apply IH in H. destruct H as (extra & ->).
    rewrite <- app_assoc. eauto.
Qed.

Lemma scan_plugins_flagged pc p b f plugins :
  In p plugins ->
  declared_base w p = Some b -> exists_ w b = true ->
  exists_ w (b // "android") = true ->
  In f (find_files w (b // "android") GRADLE_FILES) ->
  hits_in w f <> [] ->
  forall acc res, scan_plugins w pc plugins acc = Ok res ->
  exists extra, extra <> [] /\ res = acc ++ extra.
Proof.
  intros Hin Hb He Ha Hf Hh.
  induction plugins as [|q plugins IH]; [destruct Hin|].
  intros acc res H. destruct Hin as [->|Hin].
  - rewrite (@scan_plugins_step p b plugins pc acc Hb He), Ha in H.
    destruct (flat_map (entry_of w) _) as [|e es] eqn:E.
    + exfalso. assert (Hx : In (f, hits_in w f)
                              (flat_map (entry_of w)
                                 (find_files w (b // "android")
                                    GRADLE_FILES)))
        by (apply in_entries; auto).
      rewrite E in Hx. destruct Hx.
    + apply scan_plugins_grows in H. destruct H as (extra & ->).
      rewrite <- app_assoc. eexists. split; [|reflexivity]. discriminate.
  - cbn [scan_plugins] in H. destruct (p_path q); cbn [bind] in H;
      try discriminate.
    match type of H with
    | context [exists_ w (?c // "android")] =>
        destruct (exists_ w (c // "android")); cbn [negb] in H;
        [|apply (IH Hin _ _ H)];
        rewrite scan_files_eq in H; cbn [bind app] in H;
        destruct (flat_map (entry_of w) _); [apply (IH Hin _ _ H)|]
    end.
    apply (IH Hin) in H. destruct H as (extra & Hne & ->).
    rewrite <- app_assoc. eexists. split; [|reflexivity]. discriminate.
Qed.

End PluginFacts.

(** X17. From a manifest that decodes to an object with a [plugins] object
    with an [android] list of objects, [parse_plugins] returns, in their
    order, the entries whose [name] and [path] are both there and true as
    conditions, and leaves the others out. *)
Theorem parse_plugins_reads_entries (w : world) (root : path)
    (items members : list (text * json)) (entries : list json) :
  exists_ w (root // ".flutter-plugins-dependencies") = true ->
  json_loads w (read_text w (root // ".flutter-plugins-dependencies"))
  = Some (JObj items) ->
  lookup (cps "plugins") items = Some (JObj members) ->
  lookup (cps "android") members = Some (JArr entries) ->
  Forall is_object entries ->
  parse_plugins w root = Ok (flat_map plugin_of entries) /\
  forall p, In p (flat_map plugin_of entries) ->
            truth (p_name p) = true /\ truth (p_path p) = true.
Proof.
  intros He Hj Hp Ha Ho. split.
  - unfold parse_plugins. rewrite He, Hj. cbn [negb get]. rewrite Hp.
    cbn [bind get]. rewrite Ha. cbn [bind]. rewrite iter_entries.
    cbn [bind]. apply (collect_plugins_eq Ho []).
  - intros p Hin. apply in_flat_map in Hin. destruct Hin as (v & _ & Hv).
    eapply in_plugin_of; exact Hv.
Qed.

Lemma parse_plugins_reads_entries_witness :
  parse_plugins plugin_world proj = Ok (flat_map plugin_of foo_and_bar) /\
  forall p, In p (flat_map plugin_of foo_and_bar) ->
            truth (p_name p) = true /\ truth (p_path p) = true.
Proof.
  eapply (@parse_plugins_reads_entries plugin_world proj);
    try (vm_compute; reflexivity).
  repeat constructor.
Defined.

(** X18. A manifest that is there and decodes is read without an exception
    exactly when it is an object whose [plugins] member, if any, is an
    object whose [android] member, if any, is false as a condition or a
    list of objects; for every other shape [parse_plugins] raises. *)
Theorem parse_plugins_accepts_iff (w : world) (root : path) (data : json) :
  exists_ w (root // ".flutter-plugins-dependencies") = true ->
  json_loads w (read_text w (root // ".flutter-plugins-dependencies"))
  = Some data ->
  ((exists ps, parse_plugins w root = Ok ps) <-> well_shaped data).
Proof.
  intros He Hj. unfold parse_plugins. rewrite He, Hj. cbn [negb].
  unfold well_shaped.
  destruct data as [| | | | | |items]; cbn [get bind];
    try (split; [intros [ps H]; discriminate | intros []]).
  destruct (lookup (cps "plugins") items) as [pl|]; cbn [bind].
  2: { split; [auto | intros _; vm_compute; eauto]. }
  destruct pl as [| | | | | |members]; cbn [get bind];
    try (split; [intros [ps H]; discriminate | intros []]).
  destruct (lookup (cps "android") members) as [v|]; cbn [bind].
  2: { split; [auto | intros _; vm_compute; eauto]. }
  unfold or_else. destruct (truth v) eqn:T.
  - destruct v as [|b|z|nz|s|entries|kv]; cbn [iter bind];
      try (split; [intros [ps H]; discriminate
                  | intros [H|(en & H & _)]; discriminate]).
    + destruct s as [|c s]; [discriminate|]. cbn [map collect_plugins get].
      split; [intros [ps H]; discriminate
             | intros [H|(en & H & _)]; discriminate].
    + rewrite collect_plugins_ok. split.
      * intros H. right. eauto.
      * intros [H|(en & H & Hf)]; [discriminate|]. inversion H; subst.
        exact Hf.
    + destruct kv as [|[k x] kv]; [discriminate|].
      cbn [map collect_plugins get fst].
      split; [intros [ps H]; discriminate
             | intros [H|(en & H & _)]; discriminate].
  - cbn [iter bind collect_plugins]. split; eauto.
Qed.

Lemma parse_plugins_accepts_iff_witness :
  (exists ps, parse_plugins bad_entry_world proj = Ok ps) <->
  well_shaped
    (manifest_of
       [JObj [(cps "name", JStr (cps "foo"));
              (cps "path", JStr (cps "/plugins/foo"))];
        JStr (cps "bar")]).
Proof.
  apply parse_plugins_accepts_iff; vm_compute; reflexivity.
Defined.

(** X19. The package cache is searched only for a plugin whose declared
    path is missing: when every plugin has a string for its path and the
    directory it names exists, the plugin loop gives the same result for
    every cache directory. *)
Theorem declared_paths_skip_cache (w : world) (plugins : list plugin)
    (pc pc' : path) (acc : list plugin_entry) :
  (forall p, In p plugins ->
     exists b, declared_base w p = Some b /\ exists_ w b = true) ->
  scan_plugins w pc plugins acc = scan_plugins w pc' plugins acc.
Proof.
  revert acc. induction plugins as [|p plugins IH]; intros acc H; auto.
  destruct (H p (or_introl eq_refl)) as (b & Hb & He).
  rewrite (@scan_plugins_step w p b plugins pc acc Hb He),
    (@scan_plugins_step w p b plugins pc' acc Hb He).
  assert (H' : forall q, In q plugins ->
             exists b, declared_base w q = Some b /\ exists_ w b = true)
    by (intros q Hq; apply H; right; exact Hq).
  destruct (exists_ w (b // "android")); auto.
  destruct (flat_map (entry_of w) _); auto.
Qed.

Lemma declared_paths_skip_cache_witness :
  scan_plugins plugin_world [cps "cache"]
    [Plugin (JStr (cps "foo")) (JStr (cps "/plugins/foo"))] [] =
  scan_plugins plugin_world [cps "elsewhere"]
    [Plugin (JStr (cps "foo")) (JStr (cps "/plugins/foo"))] [].
Proof.
  apply declared_paths_skip_cache. intros p [<-|[]].
  eexists. split; vm_compute; reflexivity.
Defined.

(** X20. A plugin whose [path] is true as a condition but not a string
    ends the run with a [TypeError]: [parse_plugins] lets it through and
    the plugin loop raises when it builds the path. *)
Theorem non_string_path_raises (w : world) (plugins : list plugin)
    (ps1 ps2 : list plugin) (p : plugin) :
  exists_ w (cwd w // "pubspec.yaml") = true ->
  exists_ w (cwd w // "android") = true ->
  parse_plugins w (cwd w) = Ok (ps1 ++ p :: ps2) ->
  (forall q, In q ps1 -> declared_base w q <> None) ->
  declared_base w p = None ->
  main w = Raise TypeError /\ exit_status (main w) = 1%Z.
Proof.
  intros Hp Ha Hpl H1 Hn.
  assert (K : forall acc, scan_plugins w (get_pub_cache_dir w)
                            (ps1 ++ p :: ps2) acc = Raise TypeError).
  { clear Hpl. induction ps1 as [|q ps1 IH]; intros acc.
    - cbn [app scan_plugins]. unfold declared_base in Hn.
      destruct (p_path p); try discriminate; reflexivity.
    - cbn [app scan_plugins].
      assert (Hq : declared_base w q <> None) by (apply H1; left; auto).
      unfold declared_base in Hq.
      destruct (p_path q); try congruence. cbn [bind].
      assert (IH' : forall acc, scan_plugins w (get_pub_cache_dir w)
                                  (ps1 ++ p :: ps2) acc = Raise TypeError)
        by (apply IH; intros; apply H1; right; assumption).
      match goal with
      | |- context [exists_ w (?b // "android")] =>
          destruct (exists_ w (b // "android")); cbn [negb]; [|apply IH'];
          rewrite scan_files_eq; cbn [bind app];
          destruct (flat_map (entry_of w) _); apply IH'
      end. }
  assert (M : main w = Raise TypeError).
  { unfold main. rewrite Hp, Ha. cbn [negb]. unfold gather.
    rewrite scan_files_eq. cbn [bind]. rewrite Hpl. cbn [bind].
    rewrite K. reflexivity. }
  rewrite M. auto.
Qed.

Lemma non_string_path_raises_witness :
  main bad_path_world = Raise TypeError /\
  exit_status (main bad_path_world) = 1%Z.
Proof.
  apply (@non_string_path_raises bad_path_world
           [Plugin (JStr (cps "foo")) (JInt 5)] []
           [] (Plugin (JStr (cps "foo")) (JInt 5)));
    try (vm_compute; reflexivity).
  intros q [].
Defined.

(** X21. With the project file and the android directory in place, a
    plugin declared at a path that exists, with an android directory that
    holds a build file with a finding, makes the exit status 1. *)
Theorem flagged_plugin_file_fails (w : world) (plugins : list plugin)
    (p : plugin) (b f : path) :
  exists_ w (cwd w // "pubspec.yaml") = true ->
  exists_ w (cwd w // "android") = true ->
  parse_plugins w (cwd w) = Ok plugins ->
  In p plugins ->
  declared_base w p = Some b -> exists_ w b = true ->
  exists_ w (b // "android") = true ->
  In f (find_files w (b // "android") GRADLE_FILES) ->
  hits_in w f <> [] ->
  exit_status (main w) = 1%Z.
Proof.
  intros Hp Ha Hpl Hin Hb He Hs Hf Hh.
  unfold main. rewrite Hp, Ha. cbn [negb].
  destruct (gather w (cwd w) (cwd w // "android")) as [g|e] eqn:G;
    cbn [bind exit_status]; auto.
  destruct (total g) as [|n] eqn:T; auto. exfalso.
  destruct (gather_sound _ _ _ G) as [_ Hsound].
  unfold total in T. apply Nat.eq_add_0 in T. destruct T as [_ T].
  unfold total_plugins in T. apply total_plugins_zero in T; auto.
  unfold gather in G. rewrite scan_files_eq in G. cbn [bind] in G.
  rewrite Hpl in G. cbn [bind] in G.
  destruct (scan_plugins w (get_pub_cache_dir w) plugins []) as [plf|]
    eqn:S; [|discriminate].
  cbn [bind] in G. inversion G; subst g. cbn [plugin_findings] in T.
  destruct (@scan_plugins_flagged w (get_pub_cache_dir w) p b f plugins
              Hin Hb He Hs Hf Hh [] plf S) as (extra & Hne & E).
  subst plf. simpl in E. congruence.
Qed.

Lemma flagged_plugin_file_fails_witness :
  exit_status (main plugin_world) = 1%Z.
Proof.
  eapply (@flagged_plugin_file_fails plugin_world _
            (Plugin (JStr (cps "foo")) (JStr (cps "/plugins/foo")))
            [cps "/plugins/foo"]
            [cps "/plugins/foo"; cps "android"; cps "build.gradle"]);
    try (vm_compute; first [reflexivity | tauto | discriminate]).
Defined.

(* ------------------------------------------------------------------ *)
(** ** About what is printed *)

Section ReportFacts.

Lemma has_esc_app a b : has_esc (a ++ b) = has_esc a || has_esc b.
Proof. apply existsb_app. Qed.

Lemma has_esc_digits d :
  has_esc (cps (DecimalString.NilEmpty.string_of_uint d)) = false.
Proof. induction d; simpl; auto. Qed.

Lemma plain_c txt color : Report.c false txt color = txt.
Proof. reflexivity. Qed.

Lemma plain_badge sev : has_esc (Report.badge false sev) = false.
Proof.
  unfold Report.badge.
  destruct (text_eqb sev (cps "HIGH")); [vm_compute; reflexivity|].
  destruct (text_eqb sev (cps "WARN")); vm_compute; reflexivity.
Qed.

Lemma length_times s n :
  length (Report.times s n) = Z.to_nat n * length s.
Proof.
  unfold Report.times. induction (Z.to_nat n) as [|k IH]; simpl; auto.
  rewrite length_app, IH. reflexivity.
Qed.

Lemma startswith_spec p : forall s,
  startswith p s = true <-> exists r, s = p ++ r.
Proof.
  induction p as [|x p IH]; intros s; simpl.
  - split; eauto.
  - destruct s as [|y s].
    + split; [discriminate | intros [r H]; discriminate].
    + rewrite andb_true_iff, N.eqb_eq, IH. split.
      * intros [-> [r ->]]. eauto.
      * intros [r H]. inversion H. eauto.
Qed.

Lemma replace_from_skip old new k : forall r,
  Report.replace_from old new (length k) (k ++ r) =
  Report.replace_from old new 0 r.
Proof.
  induction k as [|x k IH]; intros r; simpl; auto.
Qed.

Lemma replace_from_absent old new : forall s,
  ~ occurs old s -> Report.replace_from old new 0 s = s.
Proof.
  induction s as [|x s IH]; intros H; auto.
  cbn [Report.replace_from].
  destruct (startswith old (x :: s)) eqn:E.
  - exfalso. apply H. apply startswith_spec in E. destruct E as [r E].
    exists [], r. exact E.
  - f_equal. apply IH. intros (pre & post & ->). apply H.
    exists (x :: pre), post. reflexivity.
Qed.

Lemma relative_to_ok p : forall root rel,
  Report.relative_to p root = Ok rel <-> p = under root rel.
Proof.
  unfold under. induction p as [|b p IH]; intros [|a root] rel; simpl.
  - split; [intros H; inversion H; auto | intros ->; auto].
  - split; discriminate.
  - split; [intros H; inversion H; auto | intros ->; auto].
  - destruct (text_eqb a b) eqn:E.
    + apply text_eqb_eq in E. subst b. rewrite IH. split.
      * intros ->; auto.
      * intros H; inversion H; auto.
    + split; [discriminate|]. intros H. inversion H. subst.
      rewrite text_eqb_refl in E. discriminate.
Qed.

End ReportFacts.

(** X22. Without colour, which is the case on Windows and when the output
    is no terminal, nothing printed carries an escape character of its own:
    when the path and the findings hold none, no line of a file card does;
    when the plugin name and path hold none, no line of a plugin card does;
    and so for the title box and a section heading. *)
Theorem plain_cards_have_no_escape (nt isatty : bool) :
  Report.supports_color nt isatty = false ->
  (forall file_path issues,
      has_esc file_path = false -> Forall plain_issue issues ->
      Forall (fun line => has_esc line = false)
        (Report.print_file_card (Report.supports_color nt isatty)
           file_path issues))
  /\ (forall name pth n,
        has_esc name = false -> has_esc pth = false ->
        Forall (fun line => has_esc line = false)
          (Report.print_plugin_card (Report.supports_color nt isatty)
             name pth n))
  /\ (forall t,
        has_esc t = false ->
        Forall (fun line => has_esc line = false)
          (Report.title_box (Report.supports_color nt isatty) t ++
           Report.section (Report.supports_color nt isatty) t)).
Proof.
  intros ->. split; [|split].
  - intros file_path issues Hp Hi. unfold Report.print_file_card.
    apply Forall_app. split; [|apply Forall_app; split].
    + repeat constructor; rewrite ?plain_c, ?has_esc_app, ?Hp;
        vm_compute; reflexivity.
    + induction Hi as [|[[sev title] advice] issues [Ht Ha] _ IH];
        [constructor|].
      cbn [flat_map Report.issue_lines app]. simpl in Ht, Ha.
      constructor; [|constructor; [|exact IH]].
      * rewrite !has_esc_app, plain_badge, Ht. vm_compute. reflexivity.
      * rewrite has_esc_app, plain_c, Ha. vm_compute. reflexivity.
    + repeat constructor.
  - intros name pth n Hn Hp. unfold Report.print_plugin_card.
    cbv zeta.
    constructor; [|constructor; [|constructor; [|constructor; [|constructor]]]];
      rewrite !plain_c.
    + vm_compute. reflexivity.
    + rewrite !has_esc_app, Hn, Hp. vm_compute. reflexivity.
    + unfold Report.str_of_nat. rewrite !has_esc_app, has_esc_digits.
      vm_compute. reflexivity.
    + vm_compute. reflexivity.
  - intros t Ht. unfold Report.title_box, Report.section. cbn [app].
    constructor; [reflexivity|]. constructor; [vm_compute; reflexivity|].
    constructor; [rewrite plain_c, has_esc_app, Ht; reflexivity|].
    constructor; [vm_compute; reflexivity|].
    constructor; [reflexivity|].
    constructor; [|constructor].
    rewrite plain_c. change (has_esc (newline :: t)) with (has_esc t).
    exact Ht.
Qed.

Lemma plain_cards_have_no_escape_witness :
  Forall (fun line => has_esc line = false)
    (Report.print_file_card (Report.supports_color true true)
       (cps "android/build.gradle") [finding_of jcenter_rule]).
Proof.
  destruct (@plain_cards_have_no_escape true true eq_refl) as [H _].
  apply H; [vm_compute; reflexivity|].
  repeat constructor.
Defined.

(** X23. A file card has five lines and two more for each finding, with
    or without colour; each finding has a line that ends with its title. *)
Theorem file_card_shape (use_color : bool) (file_path : text)
    (issues : list finding) :
  length (Report.print_file_card use_color file_path issues)
  = 5 + 2 * length issues /\
  forall f, In f issues ->
    exists line start,
      In line (Report.print_file_card use_color file_path issues) /\
      line = start ++ snd (fst f).
Proof.
  unfold Report.print_file_card. split.
  - rewrite !length_app. cbn [length].
    assert (E : length (flat_map (Report.issue_lines use_color) issues)
                = 2 * length issues).
    { induction issues as [|[[s t] a] issues IH]; auto.
      cbn [flat_map Report.issue_lines app length]. rewrite IH. lia. }
    rewrite E. lia.
  - intros [[sev title] advice] Hf. eexists _, _. split.
    + apply in_or_app. right. apply in_or_app. left.
      apply in_flat_map. exists (sev, title, advice). split; [exact Hf|].
      left. reflexivity.
    + cbn [fst snd]. rewrite !app_assoc. reflexivity.
Qed.

Lemma file_card_shape_witness :
  exists line start,
    In line (Report.print_file_card false (cps "build.gradle")
               [finding_of jcenter_rule]) /\
    line = start ++ snd (fst (finding_of jcenter_rule)).
Proof.
  destruct (@file_card_shape false (cps "build.gradle")
              [finding_of jcenter_rule]) as (_ & H).
  apply H. left. reflexivity.
Defined.

(** X24. [divider] repeats its string [width] times, and gives the empty
    string for a width of zero or less; the default is 72 box characters. *)
Theorem divider_length (s : text) (width : Z) :
  length (Report.divider s width) = Z.to_nat width * length s /\
  ((width <= 0)%Z -> Report.divider s width = []) /\
  length (Report.divider Report.divider_char Report.divider_width) = 72.
Proof.
  unfold Report.divider. split; [apply length_times|]. split.
  - intros H. unfold Report.times.
    replace (Z.to_nat width) with 0 by lia. reflexivity.
  - vm_compute. reflexivity.
Qed.

Lemma divider_length_witness :
  Report.divider (cps "ab") (-3) = [].
Proof.
  destruct (divider_length (cps "ab") (-3)) as (_ & H & _).
  apply H. lia.
Defined.

(** X25. [replace] leaves a text without the old string as it is, and
    replaces an old string at the head and goes on after it. *)
Theorem replace_leftmost (s old new : text) :
  old <> [] ->
  (~ occurs old s -> Report.replace s old new = s) /\
  Report.replace (old ++ s) old new = new ++ Report.replace s old new.
Proof.
  intros Hne. destruct old as [|a o]; [congruence|]. split.
  - apply replace_from_absent.
  - unfold Report.replace. cbn [app Report.replace_from].
    assert (E : startswith (a :: o) (a :: o ++ s) = true)
      by (apply startswith_spec; exists s; reflexivity).
    rewrite E. f_equal.
    replace (length (a :: o) - 1) with (length o) by (simpl; lia).
    apply replace_from_skip.
Qed.

Lemma replace_leftmost_witness :
  Report.replace (cps "/home/u" ++ cps "/x/home/u") (cps "/home/u")
    (cps "~")
  = cps "~" ++ Report.replace (cps "/x/home/u") (cps "/home/u") (cps "~").
Proof.
  destruct (@replace_leftmost (cps "/x/home/u") (cps "/home/u") (cps "~"))
    as [_ H]; [discriminate | exact H].
Defined.

(** X26. [short_path] shows a path under the project root by what follows
    the root, so that the root and what is shown give the path back; a path
    elsewhere, in whose text the home directory does not occur, is shown in
    full. *)
Theorem short_path_relative (w : world) (render : path -> text)
    (p root : path) :
  (forall rel, p = under root rel ->
               Report.short_path w render p root = render rel) /\
  ((forall rel, p <> under root rel) ->
   render (home w) <> [] -> ~ occurs (render (home w)) (render p) ->
   Report.short_path w render p root = render p).
Proof.
  unfold Report.short_path. split.
  - intros rel H. apply relative_to_ok in H. rewrite H. reflexivity.
  - intros Hn Hh Ho.
    destruct (Report.relative_to p root) as [rel|e] eqn:E.
    + apply relative_to_ok in E. destruct (Hn rel E).
    + destruct (render (home w)) as [|a o] eqn:R; [congruence|].
      apply replace_from_absent. exact Ho.
Qed.

Lemma short_path_relative_witness :
  Report.short_path clean_world slashed
    (proj // "android" // "build.gradle") proj
  = cps "android/build.gradle".
Proof.
  destruct (@short_path_relative clean_world slashed
              (proj // "android" // "build.gradle") proj) as [H _].
  rewrite (H [cps "android"; cps "build.gradle"]); reflexivity.
Defined.
